(** * The mapbox base plot module (src/plots/mapbox/index.js)

    A shallow embedding of [plot], [clean], [toSVG], [findAccessToken] and
    [updateFx], and the properties of the module's specification that can be
    settled on it.

    JavaScript objects that the module mutates (the full layout, the subplot
    wrappers, the [mapboxgl] global) live in an explicit store; calls that
    leave the module (the loggers of [Lib], the methods of the [Mapbox]
    wrapper class, the SVG container) are recorded in a trace. *)

From Stdlib Require Import Floats QArith.
From stdpp Require Import base option list strings gmap.

Set Default Proof Using "Type".
Set Warnings "-inexact-float,-clear-no-such-hyp".

Local Open Scope string_scope.
Local Open Scope list_scope.

(** ** Numbers

    A JavaScript number is an IEEE-754 binary64 value, Rocq's primitive
    [float].  The placement arithmetic of [toSVG] is written once over the
    operations it uses, so that it can also be read in exact arithmetic. *)

Class JsNumber (num : Type) := {
  num_add : num → num → num;
  num_sub : num → num → num;
  num_mul : num → num → num;
  num_one : num
}.

#[export] Instance float_JsNumber : JsNumber float := {
  num_add := PrimFloat.add;
  num_sub := PrimFloat.sub;
  num_mul := PrimFloat.mul;
  num_one := 1%float
}.

#[export] Instance Q_JsNumber : JsNumber Q := {
  num_add := Qplus;
  num_sub := Qminus;
  num_mul := Qmult;
  num_one := 1%Q
}.

(** ** Data model *)

(** [fullLayout._size]: the plot area in pixels and its margins. *)
Module Size.
Record T (num : Type) := { l : num; t : num; w : num; h : num }.
Arguments l {num}.
Arguments t {num}.
Arguments w {num}.
Arguments h {num}.
End Size.

(** [opts.domain]: [x] and [y] are two-element arrays. *)
Module Domain.
Record T (num : Type) := { x : num * num; y : num * num }.
Arguments x {num}.
Arguments y {num}.
End Domain.

(** The attributes [toSVG] gives the [svg:image] element. *)
Module Image.
Record T (num : Type) := {
  xmlns : string;
  xlink_href : string;
  x : num;
  y : num;
  width : num;
  height : num;
  preserveAspectRatio : string
}.
Arguments xmlns {num}.
Arguments xlink_href {num}.
Arguments x {num}.
Arguments y {num}.
Arguments width {num}.
Arguments height {num}.
Arguments preserveAspectRatio {num}.
End Image.

(** [opts.style] is a style name or a style object; only [typeof style]
    and the name matter here. *)
Inductive Style := StyleString (s : string) | StyleObject.

Record Center := { lon : float; lat : float }.

(** The object stored in [mapbox.viewInitial]. *)
Record View := {
  view_center : Center;
  view_zoom : float;
  view_bearing : float;
  view_pitch : float
}.

(** Wrappers are objects: a layout slot holds a reference to one. *)
Definition addr := nat.

(** [fullLayout[id]], the options of one subplot.  [accesstoken] is a string
    or undefined ([None]); [_subplot] is the wrapper or undefined. *)
Record Opts := {
  style : Style;
  accesstoken : option string;
  center : Center;
  zoom : float;
  bearing : float;
  pitch : float;
  domain : Domain.T float;
  _subplot : option addr
}.

(** The full layout: [_subplots.mapbox] (the ids, possibly undefined),
    the per-id options and [_size]. *)
Record Layout := {
  _subplots : option (list string);
  entries : gmap string Opts;
  _size : Size.T float
}.

(** One element of [gd.calcdata], with the subplot its trace is assigned to. *)
Record CalcTrace := { subplot : string; index : nat }.

(** [gd._context]: [mapboxAccessToken] is a string, or null ([None]). *)
Record Context := { mapboxAccessToken : option string }.

(** The graph div. *)
Record Gd := {
  _fullLayout : Layout;
  calcdata : list CalcTrace;
  _context : Context
}.

(** What leaves the module, in order. *)
Inductive Event :=
| LibError (msg : string)
| LibWarn (msg : string)
| LibLog (msg : string)
| NewMapbox (a : addr) (id : string)
| CallPlot (a : addr) (subplotCalcData : list CalcTrace)
| CallDestroy (a : addr)
| CallUpdateFx (a : addr)
| CallToImage (a : addr)
| AppendImage (image : Image.T float).

(** Exceptions: [new Error(msg)], and the TypeError of reading a property
    of undefined. *)
Inductive Exception := Error (msg : string) | TypeError.

Inductive Completion (A : Type) :=
| Normal (a : A)
| Throw (e : Exception).
Arguments Normal {A}.
Arguments Throw {A}.

(** The values of [./constants] and [constants/xmlns_namespaces] the module
    reads; the files are not part of the sources, so they are parameters. *)
Class Constants := {
  requiredVersion : string;
  styleValuesMapbox : list string;
  wrongVersionErrorMsg : string;
  noAccessTokenErrorMsg : string;
  multipleTokensErrorMsg : string;
  xmlnsNamespaces_svg : string
}.

(** Modelled from the spec: the [Mapbox] wrapper class of [./mapbox] is not
    part of the sources.  Its constructor and methods are parameters that act
    on the wrapper's own engine state (the map handle) and on nothing else:
    [plot] and [updateFx] read the full layout, [toImage] returns the
    PNG data URI, [destroy] stops rendering and releases the engine. *)
Class Engine := {
  engine : Type;
  Mapbox_new : string → engine;
  Mapbox_plot : list CalcTrace → Layout → engine → engine;
  Mapbox_updateFx : Layout → engine → engine;
  Mapbox_toImage : engine → string;
  Mapbox_destroy : engine → engine
}.

(** ** The store and the monad of the embedding *)

Section Embedding.
Context `{Constants} `{Engine}.

(** A wrapper object: the field [viewInitial] this module writes, and the
    engine state behind its methods. *)
Record Mapbox := { viewInitial : option View; map : engine }.

(** The page: the [mapboxgl] global ([accessToken] is [None] until it is
    assigned), the wrappers by reference with the next free reference, the
    graph div, and the trace. *)
Record State := {
  mapboxgl_version : string;
  mapboxgl_accessToken : option string;
  heap : addr → Mapbox;
  next : addr;
  gd : Gd;
  trace : list Event
}.

(** A computation runs on the store and completes normally or throws; what
    it changed before a throw stays changed. *)
Definition Js (A : Type) : Type := State → Completion A * State.

#[export] Instance Js_ret : MRet Js := λ A a s, (Normal a, s).

#[export] Instance Js_bind : MBind Js := λ A B f m s,
  match m s with
  | (Normal a, s') => f a s'
  | (Throw e, s') => (Throw e, s')
  end.

#[export] Instance Js_throw : MThrow Exception Js := λ A e s, (Throw e, s).

Definition get : Js State := λ s, (Normal s, s).

Definition modify (f : State → State) : Js unit := λ s, (Normal tt, f s).

Definition with_trace (tr : list Event) (s : State) : State :=
  {| mapboxgl_version := mapboxgl_version s;
     mapboxgl_accessToken := mapboxgl_accessToken s;
     heap := heap s; next := next s; gd := gd s; trace := tr |}.

Definition with_heap (hp : addr → Mapbox) (s : State) : State :=
  {| mapboxgl_version := mapboxgl_version s;
     mapboxgl_accessToken := mapboxgl_accessToken s;
     heap := hp; next := next s; gd := gd s; trace := trace s |}.

Definition with_next (n : addr) (s : State) : State :=
  {| mapboxgl_version := mapboxgl_version s;
     mapboxgl_accessToken := mapboxgl_accessToken s;
     heap := heap s; next := n; gd := gd s; trace := trace s |}.

Definition with_accessToken (tok : string) (s : State) : State :=
  {| mapboxgl_version := mapboxgl_version s;
     mapboxgl_accessToken := Some tok;
     heap := heap s; next := next s; gd := gd s; trace := trace s |}.

Definition with_entries (es : gmap string Opts) (s : State) : State :=
  {| mapboxgl_version := mapboxgl_version s;
     mapboxgl_accessToken := mapboxgl_accessToken s;
     heap := heap s; next := next s;
     gd := {| _fullLayout :=
                {| _subplots := _subplots (_fullLayout (gd s));
                   entries := es;
                   _size := _size (_fullLayout (gd s)) |};
              calcdata := calcdata (gd s);
              _context := _context (gd s) |};
     trace := trace s |}.

(** Writing one wrapper of the heap. *)
Definition heap_set (a : addr) (m : Mapbox) (hp : addr → Mapbox) : addr → Mapbox :=
  λ b, if decide (b = a) then m else hp b.

(** A call that leaves the module is appended to the trace. *)
Definition emit (e : Event) : Js unit :=
  modify (λ s, with_trace (trace s ++ [e]) s).

(** ** Primitive steps *)

(** [layout[id]] followed by a property read: a TypeError when the layout
    has no such entry. *)
Definition layout_get (layout : Layout) (id : string) : Js Opts :=
  match entries layout !! id with
  | Some opts => mret opts
  | None => mthrow TypeError
  end.

(** The same on [gd._fullLayout]. *)
Definition fullLayout_get (id : string) : Js Opts :=
  s ← get; layout_get (_fullLayout (gd s)) id.

(** [ids.length] and [ids[i]]: a TypeError when the id array is undefined. *)
Definition ids_get (ids : option (list string)) : Js (list string) :=
  match ids with
  | Some l => mret l
  | None => mthrow TypeError
  end.

(** [new Mapbox(gd, id)]: a fresh wrapper, with no [viewInitial] yet. *)
Definition new_Mapbox (id : string) : Js addr :=
  s ← get;
  let a := next s in
  modify (λ s, with_next (S a)
                 (with_heap (heap_set a {| viewInitial := None; map := Mapbox_new id |}
                                      (heap s)) s));;
  emit (NewMapbox a id);;
  mret a.

(** [opts._subplot = mapbox] on one options object. *)
Definition with_subplot (a : addr) (o : Opts) : Opts :=
  {| style := style o; accesstoken := accesstoken o;
     center := center o; zoom := zoom o; bearing := bearing o;
     pitch := pitch o; domain := domain o; _subplot := Some a |}.

(** [fullLayout[id]._subplot = mapbox]. *)
Definition set_subplot (id : string) (a : addr) : Js unit :=
  modify (λ s, with_entries (alter (with_subplot a) id (entries (_fullLayout (gd s)))) s).

(** [mapbox.viewInitial = v]. *)
Definition set_viewInitial (a : addr) (v : View) : Js unit :=
  modify (λ s, with_heap (heap_set a {| viewInitial := Some v; map := map (heap s a) |}
                                   (heap s)) s).

(** A method of the wrapper class runs on the wrapper's engine state. *)
Definition on_engine (a : addr) (f : engine → engine) : Js unit :=
  modify (λ s, with_heap (heap_set a {| viewInitial := viewInitial (heap s a);
                                         map := f (map (heap s a)) |}
                                   (heap s)) s).

(** [mapbox.plot(subplotCalcData, fullLayout, gd._promises)]. *)
Definition Mapbox_plot_call (a : addr) (subplotCalcData : list CalcTrace) : Js unit :=
  s ← get;
  on_engine a (Mapbox_plot subplotCalcData (_fullLayout (gd s)));;
  emit (CallPlot a subplotCalcData).

(** [mapbox.destroy()]. *)
Definition Mapbox_destroy_call (a : addr) : Js unit :=
  on_engine a Mapbox_destroy;; emit (CallDestroy a).

(** [subplotObj.updateFx(fullLayout)]. *)
Definition Mapbox_updateFx_call (a : addr) (layout : Layout) : Js unit :=
  on_engine a (Mapbox_updateFx layout);; emit (CallUpdateFx a).

(** [mapbox.toImage('png')]. *)
Definition Mapbox_toImage_call (a : addr) : Js string :=
  s ← get;
  emit (CallToImage a);;
  mret (Mapbox_toImage (map (heap s a))).

(** Modelled from the spec: [getSubplotCalcData] of [plots/get_data] is not
    part of the sources; it is the filter that keeps the calculated traces
    assigned to the subplot. *)
Definition getSubplotCalcData (calcData : list CalcTrace) (id : string) : list CalcTrace :=
  filter (λ c, subplot c = id) calcData.

(** Modelled from the spec: [Lib.pushUnique] is not part of the sources; it
    appends the item unless the array holds it already (deduplicated, in
    insertion order). *)
Definition pushUnique (array : list string) (item : string) : list string :=
  if decide (item ∈ array) then array else array ++ [item].


(** ** findAccessToken *)

(** [typeof style === 'string' && constants.styleValuesMapbox.indexOf(style) !== -1] *)
Definition isMapboxStyle (st : Style) : bool :=
  match st with
  | StyleString name => bool_decide (name ∈ styleValuesMapbox)
  | StyleObject => false
  end.

(** The truthy tokens are the non-empty strings: [if(token)]. *)
Definition truthy (token : option string) : option string :=
  match token with
  | Some tok => if decide (tok = "") then None else Some tok
  | None => None
  end.

(** The message [findAccessToken] gives [Lib.error]. *)
Definition noTokenMsg : string := "Uses Mapbox map style, but did not set an access token.".

(** The three locals of the scan. *)
Record Scan := {
  tokensUseful : list string;
  tokensListed : list string;
  wontWork : bool
}.

(** The body of the [for] loop, for the subplot [id]. *)
Definition scanSubplot (id : string) (acc : Scan) : Js Scan :=
  opts ← fullLayout_get id;
  let token := truthy (accesstoken opts) in
  acc ← (if isMapboxStyle (style opts) then
            match token with
            | Some tok =>
                mret {| tokensUseful := pushUnique (tokensUseful acc) tok;
                        tokensListed := tokensListed acc;
                        wontWork := wontWork acc |}
            | None =>
                emit (LibError noTokenMsg);;
                mret {| tokensUseful := tokensUseful acc;
                        tokensListed := tokensListed acc;
                        wontWork := true |}
            end
          else mret acc);
  match token with
  | Some tok =>
      mret {| tokensUseful := tokensUseful acc;
              tokensListed := pushUnique (tokensListed acc) tok;
              wontWork := wontWork acc |}
  | None => mret acc
  end.

Fixpoint scanSubplots (mapboxIds : list string) (acc : Scan) : Js Scan :=
  match mapboxIds with
  | [] => mret acc
  | id :: rest => acc ← scanSubplot id acc; scanSubplots rest acc
  end.

(** The message of the informational log. *)
Definition listedMsg (tokensListed : list string) : string :=
  String.concat " "
    [ "Listed mapbox access token(s)"; String.concat "," tokensListed;
      "but did not use a Mapbox map style, ignoring token(s)." ].

Definition findAccessToken (mapboxIds : option (list string)) : Js string :=
  s ← get;
  if decide (mapboxAccessToken (_context (gd s)) = Some "") then mret ""
  else
    ids ← ids_get mapboxIds;
    acc ← scanSubplots ids {| tokensUseful := []; tokensListed := []; wontWork := false |};
    if wontWork acc then mthrow (Error noAccessTokenErrorMsg)
    else
      match tokensUseful acc with
      | first :: others =>
          (match others with
           | _ :: _ => emit (LibWarn multipleTokensErrorMsg)
           | [] => mret tt
           end);;
          mret first
      | [] =>
          (match tokensListed acc with
           | _ :: _ => emit (LibLog (listedMsg (tokensListed acc)))
           | [] => mret tt
           end);;
          mret ""
      end.

(** ** plot *)

(** The object literal assigned to [mapbox.viewInitial]:
    [Lib.extendFlat({}, opts.center)] is a copy of the center. *)
Definition initialView (opts : Opts) : View :=
  {| view_center := {| lon := lon (center opts); lat := lat (center opts) |};
     view_zoom := zoom opts;
     view_bearing := bearing opts;
     view_pitch := pitch opts |}.

(** The body of the [for] loop of [plot]. *)
Definition plotSubplot (id : string) : Js unit :=
  s ← get;
  let subplotCalcData := getSubplotCalcData (calcdata (gd s)) id in
  opts ← fullLayout_get id;
  mapbox ← match _subplot opts with
            | Some a => mret a
            | None => a ← new_Mapbox id; set_subplot id a;; mret a
            end;
  s ← get;
  (match viewInitial (heap s mapbox) with
   | Some _ => mret tt
   | None =>
       set_viewInitial mapbox (initialView opts)
   end);;
  Mapbox_plot_call mapbox subplotCalcData.

Fixpoint plotSubplots (mapboxIds : list string) : Js unit :=
  match mapboxIds with
  | [] => mret tt
  | id :: rest => plotSubplot id;; plotSubplots rest
  end.

Definition plot : Js unit :=
  s ← get;
  let mapboxIds := _subplots (_fullLayout (gd s)) in
  if decide (mapboxgl_version s = requiredVersion) then
    accessToken ← findAccessToken mapboxIds;
    modify (with_accessToken accessToken);;
    ids ← ids_get mapboxIds;
    plotSubplots ids
  else mthrow (Error wrongVersionErrorMsg).

(** ** clean *)

(** The body of the [for] loop of [clean]: [&&] does not read
    [oldFullLayout[oldMapboxKey]] when the new layout has the key. *)
Definition cleanSubplot (newFullLayout oldFullLayout : Layout) (oldMapboxKey : string)
  : Js unit :=
  match entries newFullLayout !! oldMapboxKey with
  | Some _ => mret tt
  | None =>
      old ← layout_get oldFullLayout oldMapboxKey;
      match _subplot old with
      | Some a => Mapbox_destroy_call a
      | None => mret tt
      end
  end.

Fixpoint cleanSubplots (newFullLayout oldFullLayout : Layout) (oldMapboxKeys : list string)
  : Js unit :=
  match oldMapboxKeys with
  | [] => mret tt
  | key :: rest =>
      cleanSubplot newFullLayout oldFullLayout key;;
      cleanSubplots newFullLayout oldFullLayout rest
  end.

(** [newFullData] and [oldFullData] are not read. *)
Definition clean (newFullLayout oldFullLayout : Layout) : Js unit :=
  cleanSubplots newFullLayout oldFullLayout (default [] (_subplots oldFullLayout)).

(** ** toSVG *)

(** The placement of the image, from [_size] and the subplot's domain. *)
Definition imageRect {num : Type} `{!JsNumber num} (size : Size.T num) (dom : Domain.T num)
  : num * num * num * num :=
  ( num_add (Size.l size) (num_mul (Size.w size) (fst (Domain.x dom))),
    num_add (Size.t size) (num_mul (Size.h size) (num_sub num_one (snd (Domain.y dom)))),
    num_mul (Size.w size) (num_sub (snd (Domain.x dom)) (fst (Domain.x dom))),
    num_mul (Size.h size) (num_sub (snd (Domain.y dom)) (fst (Domain.y dom))) ).

(** The object given to [image.attr]. *)
Definition imageAttr (imageData : string) (size : Size.T float) (dom : Domain.T float)
  : Image.T float :=
  let '(x, y, width, height) := imageRect size dom in
  {| Image.xmlns := xmlnsNamespaces_svg;
     Image.xlink_href := imageData;
     Image.x := x;
     Image.y := y;
     Image.width := width;
     Image.height := height;
     Image.preserveAspectRatio := "none" |}.

(** [mapbox.toImage] on an undefined wrapper is a TypeError. *)
Definition wrapper_get (mapbox : option addr) : Js addr :=
  match mapbox with
  | Some a => mret a
  | None => mthrow TypeError
  end.

(** The body of the [for] loop of [toSVG]. *)
Definition toSVGSubplot (id : string) : Js unit :=
  s ← get;
  let size := _size (_fullLayout (gd s)) in
  opts ← fullLayout_get id;
  mapbox ← wrapper_get (_subplot opts);
  imageData ← Mapbox_toImage_call mapbox;
  emit (AppendImage (imageAttr imageData size (domain opts)));;
  Mapbox_destroy_call mapbox.

Fixpoint toSVGSubplots (subplotIds : list string) : Js unit :=
  match subplotIds with
  | [] => mret tt
  | id :: rest => toSVGSubplot id;; toSVGSubplots rest
  end.

Definition toSVG : Js unit :=
  s ← get;
  ids ← ids_get (_subplots (_fullLayout (gd s)));
  toSVGSubplots ids.

(** ** updateFx *)

(** The body of the [for] loop of [updateFx]. *)
Definition updateFxSubplot (id : string) : Js unit :=
  opts ← fullLayout_get id;
  subplotObj ← wrapper_get (_subplot opts);
  s ← get;
  Mapbox_updateFx_call subplotObj (_fullLayout (gd s)).

Fixpoint updateFxSubplots (subplotIds : list string) : Js unit :=
  match subplotIds with
  | [] => mret tt
  | id :: rest => updateFxSubplot id;; updateFxSubplots rest
  end.

Definition updateFx : Js unit :=
  s ← get;
  ids ← ids_get (_subplots (_fullLayout (gd s)));
  updateFxSubplots ids.

(** ** Notions the properties are stated with *)

(** Every listed subplot id has its options in the layout, which the layout
    defaults of the host guarantee. *)
Definition hasEntries (layout : Layout) (ids : list string) : Prop :=
  Forall (λ id, is_Some (entries layout !! id)) ids.

(** The subplot uses a Mapbox style and set no access token. *)
Definition lacksToken (opts : Opts) : bool :=
  isMapboxStyle (style opts) && bool_decide (truthy (accesstoken opts) = None).

(** The ids, in order, of the subplots that lack a token. *)
Definition offenders (layout : Layout) (ids : list string) : list string :=
  filter (λ id, from_option lacksToken false (entries layout !! id)) ids.

(** The tokens of the subplots with a Mapbox style, in subplot order. *)
Definition usefulTokens (layout : Layout) (ids : list string) : list string :=
  omap (λ id, opts ← entries layout !! id;
              if isMapboxStyle (style opts) then truthy (accesstoken opts) else None) ids.

(** The tokens set on any subplot, in subplot order. *)
Definition listedTokens (layout : Layout) (ids : list string) : list string :=
  omap (λ id, opts ← entries layout !! id; truthy (accesstoken opts)) ids.

(** The distinct values of a list, each at its first occurrence. *)
Definition distinct (tokens : list string) : list string :=
  foldl pushUnique [] tokens.

(** The wrapper references in the slots of the given ids. *)
Definition wrappersOf (layout : Layout) (ids : list string) : list addr :=
  omap (λ id, opts ← entries layout !! id; _subplot opts) ids.

(** The id has a wrapper whose initial view is set. *)
Definition plotted (s : State) (id : string) : Prop :=
  ∃ opts a, entries (_fullLayout (gd s)) !! id = Some opts
            ∧ _subplot opts = Some a
            ∧ is_Some (viewInitial (heap s a)).

(** The id has a wrapper. *)
Definition hasWrapper (layout : Layout) (id : string) : Prop :=
  ∃ opts a, entries layout !! id = Some opts ∧ _subplot opts = Some a.

(** Projections of a trace. *)
Definition constructed (tr : list Event) : list addr :=
  omap (λ e, match e with NewMapbox a _ => Some a | _ => None end) tr.

Definition destroyed (tr : list Event) : list addr :=
  omap (λ e, match e with CallDestroy a => Some a | _ => None end) tr.

Definition images (tr : list Event) : list (Image.T float) :=
  omap (λ e, match e with AppendImage image => Some image | _ => None end) tr.

Definition isLog (e : Event) : bool :=
  match e with LibError _ | LibWarn _ | LibLog _ => true | _ => false end.

(** What [findAccessToken] reads of a page. *)
Definition tokenConfig (s : State)
  : Context * option (list string) * gmap string (Style * option string) :=
  ( _context (gd s),
    _subplots (_fullLayout (gd s)),
    (λ o, (style o, accesstoken o)) <$> entries (_fullLayout (gd s)) ).

(** The previous subplot ids that the new layout no longer has. *)
Definition removedKeys (newFullLayout oldFullLayout : Layout) : list string :=
  filter (λ key, entries newFullLayout !! key = None)
         (default [] (_subplots oldFullLayout)).

(** The options of the given ids, in order. *)
Definition optsOf (layout : Layout) (ids : list string) : list Opts :=
  omap (λ id, entries layout !! id) ids.

(** The placement [toSVG] computes, with the arithmetic of JavaScript
    written out. *)
Definition placedAt (size : Size.T float) (dom : Domain.T float) (image : Image.T float)
  : Prop :=
  Image.x image = (Size.l size + Size.w size * fst (Domain.x dom))%float
  ∧ Image.y image = (Size.t size + Size.h size * (1 - snd (Domain.y dom)))%float
  ∧ Image.width image = (Size.w size * (snd (Domain.x dom) - fst (Domain.x dom)))%float
  ∧ Image.height image = (Size.h size * (snd (Domain.y dom) - fst (Domain.y dom)))%float.

(** ** Notions for the further properties *)

(** A loop over the subplot ids with the given body, as the [for] loops of
    the module are. *)
Fixpoint forEach (body : string → Js unit) (ids : list string) : Js unit :=
  match ids with
  | [] => mret tt
  | id :: rest => body id;; forEach body rest
  end.

(** The wrapper in the slot of a subplot, if any. *)
Definition slotOf (layout : Layout) (id : string) : option addr :=
  opts ← entries layout !! id; _subplot opts.

(** Every slot holds an allocated wrapper, and no two subplots hold the
    same one. *)
Definition ownedWrappers (s : State) : Prop :=
  (∀ id a, slotOf (_fullLayout (gd s)) id = Some a → a < next s)
  ∧ (∀ id1 id2 a, slotOf (_fullLayout (gd s)) id1 = Some a →
                  slotOf (_fullLayout (gd s)) id2 = Some a → id1 = id2).

(** The calls of [mapbox.plot] in a trace: the wrapper and the data. *)
Definition plotCalls (tr : list Event) : list (addr * list CalcTrace) :=
  omap (λ e, match e with CallPlot a calc => Some (a, calc) | _ => None end) tr.

(** The image [toSVG] appends for a subplot of the page [s]: the snapshot of
    its wrapper as it is in [s], placed by its domain. *)
Definition exportedImage (s : State) (id : string) : option (Image.T float) :=
  opts ← entries (_fullLayout (gd s)) !! id;
  a ← _subplot opts;
  Some (imageAttr (Mapbox_toImage (map (heap s a)))
                  (_size (_fullLayout (gd s))) (domain opts)).

(** What no function of the module but [plot] changes: the graph div with
    its layout and slots, the [mapboxgl] global, the references in use, the
    wrappers constructed so far and every [viewInitial]. *)
Definition sameButEngines (s s' : State) : Prop :=
  gd s' = gd s
  ∧ next s' = next s
  ∧ mapboxgl_version s' = mapboxgl_version s
  ∧ mapboxgl_accessToken s' = mapboxgl_accessToken s
  ∧ constructed (trace s') = constructed (trace s)
  ∧ (∀ a, viewInitial (heap s' a) = viewInitial (heap s a)).

(** The trace [toSVG] leaves for a subplot of the page [s]: the snapshot,
    the image, then the [destroy]. *)
Definition exportEvents (s : State) (id : string) : list Event :=
  match slotOf (_fullLayout (gd s)) id, exportedImage s id with
  | Some a, Some image => [CallToImage a; AppendImage image; CallDestroy a]
  | _, _ => []
  end.

(** The three calls [toSVG] makes for one subplot, in order. *)
Definition exportCalls (a : addr) (image : Image.T float) : list Event :=
  [CallToImage a; AppendImage image; CallDestroy a].

(** The image data [toSVG] gets for the wrappers [wrappers], exported in
    this order from the engine states [e]: each snapshot is taken before its
    wrapper is destroyed, and a wrapper met a second time is taken as the
    first export left it, destroyed. *)
Fixpoint snapshots (e : addr → engine) (wrappers : list addr) : list string :=
  match wrappers with
  | [] => []
  | a :: rest =>
      Mapbox_toImage (e a)
      :: snapshots (λ b, if decide (b = a) then Mapbox_destroy (e a) else e b) rest
  end.

End Embedding.

(** ** Sample instances and pages

    Concrete values for the parameters, used to run the embedding. *)

#[export] Instance sample_constants : Constants := {
  requiredVersion := "1.1.1";
  styleValuesMapbox :=
    ["basic"; "streets"; "outdoors"; "light"; "dark"; "satellite"; "satellite-streets"];
  wrongVersionErrorMsg := "Your custom plotly.js bundle is not using the correct mapbox-gl version.";
  noAccessTokenErrorMsg := "Missing Mapbox access token.";
  multipleTokensErrorMsg := "Set multiple mapbox access token across different mapbox subplot, using first token found.";
  xmlnsNamespaces_svg := "http://www.w3.org/2000/svg"
}.

(** A wrapper engine that counts its [plot] calls until it is released. *)
Inductive SampleEngine := Running (plots : nat) | Released.

#[export] Instance sample_engine : Engine := {
  engine := SampleEngine;
  Mapbox_new := λ _, Running 0;
  Mapbox_plot := λ _ _ e, match e with Running n => Running (S n) | Released => Running 1 end;
  Mapbox_updateFx := λ _ e, e;
  Mapbox_toImage := λ _, "data:image/png;base64,";
  Mapbox_destroy := λ _, Released
}.

Definition sample_center : Center := {| lon := 0%float; lat := 0%float |}.

Definition sample_domain : Domain.T float :=
  {| Domain.x := (0.2, 0.8)%float; Domain.y := (0.1, 0.9)%float |}.

Definition sample_size : Size.T float :=
  {| Size.l := 0%float; Size.t := 0%float; Size.w := 800%float; Size.h := 600%float |}.

(** Subplot options with the given style, token and wrapper slot. *)
Definition sample_opts (st : Style) (token : option string) (slot : option addr) : Opts :=
  {| style := st; accesstoken := token; center := sample_center;
     zoom := 1%float; bearing := 0%float; pitch := 0%float;
     domain := sample_domain; _subplot := slot |}.

Definition sample_layout (ids : list string) (es : list (string * Opts)) : Layout :=
  {| _subplots := Some ids; entries := list_to_map es; _size := sample_size |}.

(** A page on which nothing was plotted yet: no wrapper has a view. *)
Definition sample_page (version : string) (ctxToken : option string) (layout : Layout)
  : State :=
  {| mapboxgl_version := version;
     mapboxgl_accessToken := None;
     heap := λ _, {| viewInitial := None; map := Released |};
     next := 0;
     gd := {| _fullLayout := layout;
              calcdata := [ {| subplot := "mapbox"; index := 0 |} ];
              _context := {| mapboxAccessToken := ctxToken |} |};
     trace := [] |}.

(** The example of the specification in exact arithmetic. *)
Definition exact_size : Size.T Q :=
  {| Size.l := 0; Size.t := 0; Size.w := 800; Size.h := 600 |}%Q.

Definition exact_domain : Domain.T Q :=
  {| Domain.x := (2 # 10, 8 # 10); Domain.y := (1 # 10, 9 # 10) |}%Q.

(** Three subplots; the second and the third have a Mapbox style and no
    usable token (undefined, and the empty string). *)
Definition layout_missing : Layout :=
  sample_layout ["mapbox"; "mapbox2"; "mapbox3"]
    [ ("mapbox", sample_opts (StyleString "basic") (Some "tokA") None);
      ("mapbox2", sample_opts (StyleString "dark") None None);
      ("mapbox3", sample_opts (StyleString "satellite") (Some "") None) ].

(** Three subplots with Mapbox styles and the tokens tokA, tokB, tokA. *)
Definition layout_tokens : Layout :=
  sample_layout ["mapbox"; "mapbox2"; "mapbox3"]
    [ ("mapbox", sample_opts (StyleString "basic") (Some "tokA") None);
      ("mapbox2", sample_opts (StyleString "dark") (Some "tokB") None);
      ("mapbox3", sample_opts (StyleString "light") (Some "tokA") None) ].

(** One subplot with a Mapbox style and a token. *)
Definition layout_one : Layout :=
  sample_layout ["mapbox"]
    [ ("mapbox", sample_opts (StyleString "basic") (Some "tokA") None) ].

(** Subplots without a Mapbox style: a style object, and two other names. *)
Definition layout_other_styles : Layout :=
  sample_layout ["mapbox"; "mapbox2"; "mapbox3"]
    [ ("mapbox", sample_opts StyleObject (Some "tokA") None);
      ("mapbox2", sample_opts (StyleString "open-street-map") (Some "tokB") None);
      ("mapbox3", sample_opts (StyleString "white-bg") None None) ].

(** Two subplots that hold the wrappers 0 and 1. *)
Definition layout_AB : Layout :=
  sample_layout ["mapbox"; "mapbox2"]
    [ ("mapbox", sample_opts (StyleString "basic") (Some "tokA") (Some 0));
      ("mapbox2", sample_opts (StyleString "basic") (Some "tokA") (Some 1)) ].

(** The first of them alone. *)
Definition layout_A : Layout :=
  sample_layout ["mapbox"]
    [ ("mapbox", sample_opts (StyleString "basic") (Some "tokA") (Some 0)) ].

(** Two subplots, the second without a wrapper. *)
Definition layout_half : Layout :=
  sample_layout ["mapbox"; "mapbox2"]
    [ ("mapbox", sample_opts (StyleString "basic") (Some "tokA") (Some 0));
      ("mapbox2", sample_opts (StyleString "basic") (Some "tokA") None) ].

(** A page that was plotted: every wrapper is live and has a view. *)
Definition plotted_page (layout : Layout) : State :=
  {| mapboxgl_version := "1.1.1";
     mapboxgl_accessToken := Some "tokA";
     heap := λ _, {| viewInitial := Some (initialView (sample_opts StyleObject None None));
                     map := Running 1 |};
     next := 2;
     gd := {| _fullLayout := layout;
              calcdata := [ {| subplot := "mapbox"; index := 0 |} ];
              _context := {| mapboxAccessToken := None |} |};
     trace := [] |}.

(** The page with two live wrappers. *)
Definition page_AB : State := plotted_page layout_AB.

(** Three listed subplots, the second without options; the first has a
    Mapbox style and no token. *)
Definition layout_gap : Layout :=
  sample_layout ["mapbox"; "mapbox2"; "mapbox3"]
    [ ("mapbox", sample_opts (StyleString "dark") None None);
      ("mapbox3", sample_opts (StyleString "basic") (Some "tokA") None) ].

(** Two listed subplots, the first with the wrapper 0, the second without
    options. *)
Definition layout_A_gap : Layout :=
  sample_layout ["mapbox"; "mapbox2"]
    [ ("mapbox", sample_opts (StyleString "basic") (Some "tokA") (Some 0)) ].

(** * Properties *)

Section Properties.
Context `{Constants} `{Engine}.

(** ** Running the monad *)

Lemma bind_run {A B : Type} (m : Js A) (f : A → Js B) (s : State) :
  (m ≫= f) s =
  match m s with
  | (Normal a, s') => f a s'
  | (Throw e, s') => (Throw e, s')
  end.
Proof. reflexivity. Qed.

Lemma with_trace_same (s : State) : with_trace (trace s) s = s.
Proof. by destruct s. Qed.

Lemma with_trace_app (s : State) (evs1 evs2 : list Event) :
  with_trace ((trace s ++ evs1) ++ evs2) (with_trace (trace s ++ evs1) s)
  = with_trace (trace s ++ evs1 ++ evs2) s.
Proof. unfold with_trace; simpl. by rewrite <- app_assoc. Qed.

Lemma with_trace_nil (s : State) : with_trace (trace s ++ []) s = s.
Proof. rewrite app_nil_r. apply with_trace_same. Qed.

Lemma fullLayout_get_run (id : string) (s : State) :
  fullLayout_get id s =
  match entries (_fullLayout (gd s)) !! id with
  | Some opts => (Normal opts, s)
  | None => (Throw TypeError, s)
  end.
Proof.
  unfold fullLayout_get, layout_get. rewrite bind_run. simpl.
  by destruct (entries (_fullLayout (gd s)) !! id).
Qed.

(** ** findAccessToken *)

Lemma foldl_pushUnique_cons (items : list string) :
  ∀ (a : string) (l : list string),
    ∃ l', foldl pushUnique (a :: l) items = a :: l'
          ∧ (l' = [] ↔ l = [] ∧ Forall (λ item, item = a) items).
Proof.
  induction items as [|item items IH]; intros a l; simpl.
  - exists l. split; [done|]. split; [by intros ->|by intros [-> _]].
  - unfold pushUnique at 2. case_decide as Hin.
    + destruct (IH a l) as (l' & -> & Hl'). exists l'. split; [done|].
      rewrite Hl'. split.
      * intros [-> Hall]. split; [done|]. constructor; [|done].
        by apply list_elem_of_singleton in Hin.
      * intros [-> Hall]. split; [done|]. by inversion Hall.
    + simpl. destruct (IH a (l ++ [item])) as (l' & -> & Hl'). exists l'.
      split; [done|]. rewrite Hl'. split.
      * intros [Hnil _]. by destruct l.
      * intros [-> Hall]. inversion Hall as [|?? Heq ?]; subst.
        exfalso. apply Hin. by left.
Qed.

Lemma distinct_cons (first : string) (rest : list string) :
  ∃ others, distinct (first :: rest) = first :: others
            ∧ (others = [] ↔ Forall (λ tok, tok = first) rest).
Proof.
  unfold distinct; simpl. unfold pushUnique at 2.
  rewrite decide_False by apply not_elem_of_nil. simpl.
  destruct (foldl_pushUnique_cons rest first []) as (l' & -> & Hl').
  exists l'. split; [done|]. rewrite Hl'. naive_solver.
Qed.

Lemma elem_of_pushUnique (array : list string) (item tok : string) :
  tok ∈ pushUnique array item ↔ tok ∈ array ∨ tok = item.
Proof.
  unfold pushUnique. case_decide.
  - naive_solver.
  - rewrite elem_of_app, list_elem_of_singleton. naive_solver.
Qed.

Lemma NoDup_pushUnique (array : list string) (item : string) :
  NoDup array → NoDup (pushUnique array item).
Proof.
  intros Hnd. unfold pushUnique. case_decide; [done|].
  apply NoDup_app. split_and!; [done| |apply NoDup_singleton].
  intros x Hx ->%list_elem_of_singleton. done.
Qed.

Lemma foldl_pushUnique_spec (items : list string) :
  ∀ acc, NoDup acc →
    NoDup (foldl pushUnique acc items)
    ∧ ∀ tok, tok ∈ foldl pushUnique acc items ↔ tok ∈ acc ∨ tok ∈ items.
Proof.
  induction items as [|item items IH]; intros acc Hnd; simpl.
  - split; [done|]. intros tok. rewrite elem_of_nil. naive_solver.
  - destruct (IH (pushUnique acc item)) as [Hnd' Hin]; [by apply NoDup_pushUnique|].
    split; [done|]. intros tok. rewrite Hin, elem_of_pushUnique, elem_of_cons.
    naive_solver.
Qed.

(** [distinct] keeps every value once. *)
Lemma distinct_spec (tokens : list string) :
  NoDup (distinct tokens) ∧ ∀ tok, tok ∈ distinct tokens ↔ tok ∈ tokens.
Proof.
  destruct (foldl_pushUnique_spec tokens [] (NoDup_nil_2)) as [Hnd Hin].
  split; [done|]. intros tok. unfold distinct. rewrite Hin, elem_of_nil. naive_solver.
Qed.

Lemma scanSubplots_run (ids : list string) :
  ∀ (acc : Scan) (s : State),
    hasEntries (_fullLayout (gd s)) ids →
    scanSubplots ids acc s =
    ( Normal {| tokensUseful :=
                  foldl pushUnique (tokensUseful acc) (usefulTokens (_fullLayout (gd s)) ids);
                tokensListed :=
                  foldl pushUnique (tokensListed acc) (listedTokens (_fullLayout (gd s)) ids);
                wontWork :=
                  wontWork acc || bool_decide (offenders (_fullLayout (gd s)) ids ≠ []) |},
      with_trace (trace s ++ ((λ _, LibError noTokenMsg) <$> offenders (_fullLayout (gd s)) ids)) s ).
Proof.
  induction ids as [|id ids IH]; intros acc s Hwf.
  - simpl. rewrite with_trace_nil. destruct acc. simpl. by rewrite orb_false_r.
  - inversion Hwf as [|?? [opts Hopts] Hwf']; subst.
    simpl. rewrite bind_run. unfold scanSubplot. rewrite bind_run, fullLayout_get_run, Hopts.
    unfold usefulTokens, listedTokens, offenders. simpl.
    rewrite filter_cons. rewrite !Hopts. simpl. unfold lacksToken.
    destruct (isMapboxStyle (style opts)) eqn:Hst, (truthy (accesstoken opts)) as [tok|] eqn:Htok;
      simpl.
    + by rewrite IH.
    + rewrite IH by done. simpl. rewrite with_trace_app.
      by rewrite orb_true_r.
    + by rewrite IH.
    + rewrite IH by done. by destruct acc.
Qed.

Lemma findAccessToken_run (ids : list string) (s : State) :
  mapboxAccessToken (_context (gd s)) ≠ Some "" →
  hasEntries (_fullLayout (gd s)) ids →
  findAccessToken (Some ids) s =
  let layout := _fullLayout (gd s) in
  match offenders layout ids with
  | _ :: _ =>
      ( Throw (Error noAccessTokenErrorMsg),
        with_trace (trace s ++ ((λ _, LibError noTokenMsg) <$> offenders layout ids)) s )
  | [] =>
      match distinct (usefulTokens layout ids) with
      | first :: others =>
          ( Normal first,
            with_trace (trace s ++ match others with
                                   | _ :: _ => [LibWarn multipleTokensErrorMsg]
                                   | [] => []
                                   end) s )
      | [] =>
          ( Normal "",
            with_trace (trace s ++ match distinct (listedTokens layout ids) with
                                   | _ :: _ =>
                                       [LibLog (listedMsg (distinct (listedTokens layout ids)))]
                                   | [] => []
                                   end) s )
      end
  end.
Proof.
  intros Hctx Hwf. unfold findAccessToken. rewrite bind_run. simpl.
  rewrite decide_False by done.
  rewrite bind_run. simpl. rewrite bind_run, scanSubplots_run by done. simpl.
  fold (distinct (usefulTokens (_fullLayout (gd s)) ids)).
  fold (distinct (listedTokens (_fullLayout (gd s)) ids)).
  destruct (offenders (_fullLayout (gd s)) ids) as [|off offs] eqn:Hoff; simpl.
  - destruct (distinct (usefulTokens (_fullLayout (gd s)) ids)) as [|first others].
    + rewrite bind_run.
      destruct (distinct (listedTokens (_fullLayout (gd s)) ids)); simpl.
      * done.
      * by rewrite app_nil_r.
    + rewrite bind_run. destruct others; simpl; [done|]. by rewrite app_nil_r.
  - done.
Qed.

(** Whatever it returns, [findAccessToken] changes nothing but the trace,
    and what it appends are log calls. *)
Lemma scanSubplots_frame (ids : list string) :
  ∀ (acc : Scan) (s : State),
    ∃ evs, snd (scanSubplots ids acc s) = with_trace (trace s ++ evs) s
           ∧ Forall (λ e, isLog e = true) evs.
Proof.
  induction ids as [|id ids IH]; intros acc s; simpl.
  - exists []. by rewrite with_trace_nil.
  - rewrite bind_run. unfold scanSubplot. rewrite bind_run, fullLayout_get_run.
    destruct (entries (_fullLayout (gd s)) !! id) as [opts|]; simpl.
    2:{ exists []. by rewrite with_trace_nil. }
    destruct (isMapboxStyle (style opts)), (truthy (accesstoken opts)) as [tok|]; simpl;
      try apply IH.
    match goal with |- context [scanSubplots ids ?acc' ?s'] =>
      destruct (IH acc' s') as (evs & -> & Hevs) end.
    eexists. simpl. rewrite with_trace_app. split; [done|]. by constructor.
Qed.

Lemma findAccessToken_frame (mapboxIds : option (list string)) (s : State) :
  ∃ evs, snd (findAccessToken mapboxIds s) = with_trace (trace s ++ evs) s
         ∧ Forall (λ e, isLog e = true) evs.
Proof.
  unfold findAccessToken. rewrite bind_run. simpl. case_decide.
  { exists []. by rewrite with_trace_nil. }
  rewrite bind_run. destruct mapboxIds as [ids|]; simpl.
  2:{ exists []. by rewrite with_trace_nil. }
  rewrite bind_run.
  destruct (scanSubplots_frame ids {| tokensUseful := []; tokensListed := []; wontWork := false |} s)
    as (evs & Hs' & Hevs).
  destruct (scanSubplots ids _ s) as [[acc|e] s']; simpl in *; subst s'; [|by eauto].
  destruct (wontWork acc); simpl; [by eauto|].
  destruct (tokensUseful acc) as [|first others].
  - rewrite bind_run. destruct (tokensListed acc); simpl; [by eauto|].
    eexists. rewrite with_trace_app. split; [done|].
    apply Forall_app. split; [done|]. by repeat constructor.
  - rewrite bind_run. destruct others; simpl; [by eauto|].
    eexists. rewrite with_trace_app. split; [done|].
    apply Forall_app. split; [done|]. by repeat constructor.
Qed.

Lemma distinct_nil_iff (tokens : list string) : distinct tokens = [] ↔ tokens = [].
Proof.
  destruct tokens as [|first rest]; [done|].
  destruct (distinct_cons first rest) as (others & -> & _). done.
Qed.

Lemma offenders_nonempty (layout : Layout) (ids : list string) :
  (∃ id opts, id ∈ ids ∧ entries layout !! id = Some opts ∧ lacksToken opts = true) →
  ∃ off offs, offenders layout ids = off :: offs.
Proof.
  intros (id & opts & Hin & Hopts & Hlacks).
  assert (id ∈ offenders layout ids) as Hoff.
  { apply list_elem_of_filter. split; [|done]. rewrite Hopts. simpl. by rewrite Hlacks. }
  destruct (offenders layout ids); [by apply elem_of_nil in Hoff|eauto].
Qed.

(** C1: when the installed mapbox-gl version differs from the required one,
    [plot] throws the version error and leaves the whole page as it was: no
    token is resolved (the trace has no new log), no wrapper is constructed
    or written, no layout slot is set, and [mapboxgl.accessToken] keeps its
    value. *)
Theorem plot_wrong_version (s : State) :
  mapboxgl_version s ≠ requiredVersion →
  plot s = (Throw (Error wrongVersionErrorMsg), s).
Proof.
  intros Hversion. unfold plot. rewrite bind_run. simpl.
  by rewrite decide_False.
Qed.

(** C2: on a layout whose listed ids all have their options, when some
    subplot has a Mapbox style and no access token and the context does not
    ask for the empty token, [findAccessToken] throws the
    missing-token error after logging one error per such subplot of the whole
    id list; [plot] then throws the same error with the page changed in its
    trace only: no wrapper constructed or written, no slot set,
    [mapboxgl.accessToken] not assigned. *)
Theorem plot_missing_token (s : State) (ids : list string) :
  let layout := _fullLayout (gd s) in
  let errors := replicate (length (offenders layout ids)) (LibError noTokenMsg) in
  _subplots layout = Some ids →
  hasEntries layout ids →
  mapboxAccessToken (_context (gd s)) ≠ Some "" →
  (∃ id opts, id ∈ ids ∧ entries layout !! id = Some opts ∧ lacksToken opts = true) →
  0 < length (offenders layout ids)
  ∧ findAccessToken (Some ids) s
    = (Throw (Error noAccessTokenErrorMsg), with_trace (trace s ++ errors) s)
  ∧ (mapboxgl_version s = requiredVersion →
     plot s = (Throw (Error noAccessTokenErrorMsg), with_trace (trace s ++ errors) s)).
Proof.
  intros layout errors Hids Hwf Hctx Hoff.
  destruct (offenders_nonempty _ _ Hoff) as (off & offs & Hoffs).
  assert (findAccessToken (Some ids) s
          = (Throw (Error noAccessTokenErrorMsg), with_trace (trace s ++ errors) s)) as Hfind.
  { rewrite findAccessToken_run by done. simpl. fold layout. rewrite Hoffs.
    subst errors. rewrite Hoffs. by rewrite <- (const_fmap (λ _, LibError noTokenMsg)). }
  split_and!.
  - rewrite Hoffs. simpl. lia.
  - done.
  - intros Hversion. unfold plot. rewrite bind_run. simpl.
    rewrite decide_True by done. rewrite bind_run. fold layout. by rewrite Hids, Hfind.
Qed.

(** C3: when the context's access token is the empty string,
    [findAccessToken] returns the empty string at once, whatever the layout
    and the id array are: nothing is scanned, nothing is thrown and nothing
    is logged (the page, its trace included, is unchanged). *)
Theorem findAccessToken_empty_context (mapboxIds : option (list string)) (s : State) :
  mapboxAccessToken (_context (gd s)) = Some "" →
  findAccessToken mapboxIds s = (Normal "", s).
Proof.
  intros Hctx. unfold findAccessToken. rewrite bind_run. simpl.
  by rewrite decide_True.
Qed.

(** C4 (amended): on a layout whose listed ids all have their options,
    when the context does not ask for the empty token, no subplot with a
    Mapbox style lacks a token, and the useful tokens, in
    subplot order, are [first :: rest], [findAccessToken] returns [first];
    it logs exactly one warning when some later useful token differs from
    [first], and nothing when they all equal it. *)
Theorem findAccessToken_first_useful
    (s : State) (ids : list string) (first : string) (rest : list string) :
  let layout := _fullLayout (gd s) in
  hasEntries layout ids →
  mapboxAccessToken (_context (gd s)) ≠ Some "" →
  offenders layout ids = [] →
  usefulTokens layout ids = first :: rest →
  findAccessToken (Some ids) s
  = ( Normal first,
      with_trace (trace s ++ if decide (Forall (λ tok, tok = first) rest)
                             then []
                             else [LibWarn multipleTokensErrorMsg]) s ).
Proof.
  intros layout Hwf Hctx Hoff Huseful.
  rewrite findAccessToken_run by done. simpl. fold layout. rewrite Hoff, Huseful.
  destruct (distinct_cons first rest) as (others & -> & Hothers).
  destruct others as [|other others].
  - rewrite decide_True; [done|]. by apply Hothers.
  - rewrite decide_False; [done|]. intros Hall. by apply Hothers in Hall.
Qed.

(** C5 (amended): on a layout whose listed ids all have their options,
    when the context does not ask for the empty token and no subplot has a
    Mapbox style, [findAccessToken] returns the empty string;
    it logs exactly one message, naming the distinct listed tokens, when a
    token is listed on some subplot, and nothing otherwise. *)
Theorem findAccessToken_no_mapbox_style (s : State) (ids : list string) :
  let layout := _fullLayout (gd s) in
  hasEntries layout ids →
  mapboxAccessToken (_context (gd s)) ≠ Some "" →
  (∀ id opts, id ∈ ids → entries layout !! id = Some opts →
              isMapboxStyle (style opts) = false) →
  findAccessToken (Some ids) s
  = ( Normal "",
      with_trace (trace s ++ match listedTokens layout ids with
                             | _ :: _ => [LibLog (listedMsg (distinct (listedTokens layout ids)))]
                             | [] => []
                             end) s ).
Proof.
  intros layout Hwf Hctx Hstyle.
  assert (offenders layout ids = []) as Hoff.
  { apply elem_of_nil_inv. intros id [Hlacks Hin]%list_elem_of_filter.
    destruct (entries layout !! id) as [opts|] eqn:Hopts; simpl in Hlacks; [|done].
    unfold lacksToken in Hlacks. by rewrite (Hstyle id opts) in Hlacks. }
  assert (usefulTokens layout ids = []) as Huseful.
  { apply elem_of_nil_inv. intros tok (id & Hin & Htok)%list_elem_of_omap.
    destruct (entries layout !! id) as [opts|] eqn:Hopts; simpl in Htok; [|done].
    by rewrite (Hstyle id opts) in Htok. }
  rewrite findAccessToken_run by done. simpl. fold layout. rewrite Hoff, Huseful. simpl.
  destruct (listedTokens layout ids) as [|tok toks] eqn:Hlisted; [done|].
  destruct (distinct_cons tok toks) as (others & -> & _). done.
Qed.

(** ** plot *)

Lemma tokenConfig_lookup (s s' : State) (id : string) :
  tokenConfig s' = tokenConfig s →
  (λ o, (style o, accesstoken o)) <$> entries (_fullLayout (gd s')) !! id
  = (λ o, (style o, accesstoken o)) <$> entries (_fullLayout (gd s)) !! id.
Proof.
  unfold tokenConfig. intros [= _ _ Hmap]. by rewrite <- !lookup_fmap, Hmap.
Qed.

Lemma scanSubplots_config (ids : list string) :
  ∀ (acc : Scan) (s s' : State),
    tokenConfig s' = tokenConfig s →
    fst (scanSubplots ids acc s') = fst (scanSubplots ids acc s).
Proof.
  induction ids as [|id ids IH]; intros acc s s' Hcfg; simpl; [done|].
  rewrite !bind_run. unfold scanSubplot. rewrite !bind_run, !fullLayout_get_run.
  pose proof (tokenConfig_lookup s s' id Hcfg) as Hid.
  destruct (entries (_fullLayout (gd s')) !! id) as [opts'|],
           (entries (_fullLayout (gd s)) !! id) as [opts|]; simpl in Hid;
    [|done|done|done].
  injection Hid as -> ->.
  destruct (isMapboxStyle (style opts)), (truthy (accesstoken opts)); simpl;
    by apply IH.
Qed.

Lemma findAccessToken_config (mapboxIds : option (list string)) (s s' : State) :
  tokenConfig s' = tokenConfig s →
  fst (findAccessToken mapboxIds s') = fst (findAccessToken mapboxIds s).
Proof.
  intros Hcfg. unfold findAccessToken. rewrite !bind_run. simpl.
  assert (_context (gd s') = _context (gd s)) as -> by (by injection Hcfg).
  case_decide; [done|].
  rewrite !bind_run. destruct mapboxIds as [ids|]; simpl; [|done].
  rewrite !bind_run.
  pose proof (scanSubplots_config ids
    {| tokensUseful := []; tokensListed := []; wontWork := false |} s s' Hcfg) as Hscan.
  destruct (scanSubplots ids _ s') as [[acc'|e'] s1'],
           (scanSubplots ids _ s) as [[acc|e] s1]; simplify_eq/=; [|done].
  destruct (wontWork acc); [done|].
  destruct (tokensUseful acc) as [|first others]; rewrite !bind_run.
  - by destruct (tokensListed acc).
  - by destruct others.
Qed.

Lemma heap_set_eq (a : addr) (m : Mapbox) (hp : addr → Mapbox) : heap_set a m hp a = m.
Proof. unfold heap_set. by rewrite decide_True. Qed.

Lemma heap_set_ne (a b : addr) (m : Mapbox) (hp : addr → Mapbox) :
  b ≠ a → heap_set a m hp b = hp b.
Proof. intros Hne. unfold heap_set. by rewrite decide_False. Qed.

Ltac js_run :=
  cbv [mbind Js_bind mret Js_ret mthrow Js_throw get modify emit
       set_viewInitial on_engine new_Mapbox set_subplot
       Mapbox_plot_call Mapbox_destroy_call Mapbox_updateFx_call Mapbox_toImage_call
       wrapper_get ids_get layout_get fullLayout_get];
  simpl.

Lemma plotSubplot_missing (id : string) (s : State) :
  entries (_fullLayout (gd s)) !! id = None →
  plotSubplot id s = (Throw TypeError, s).
Proof.
  intros Hopts. unfold plotSubplot. rewrite bind_run. simpl.
  by rewrite bind_run, fullLayout_get_run, Hopts.
Qed.

(** The loop body on a subplot that has its wrapper: nothing is constructed,
    the layout is not written, and [viewInitial] is written only if unset. *)
Lemma plotSubplot_reuse (id : string) (s : State) (opts : Opts) (a : addr) :
  entries (_fullLayout (gd s)) !! id = Some opts →
  _subplot opts = Some a →
  ∃ s1, plotSubplot id s = (Normal tt, s1)
        ∧ gd s1 = gd s
        ∧ next s1 = next s
        ∧ mapboxgl_version s1 = mapboxgl_version s
        ∧ mapboxgl_accessToken s1 = mapboxgl_accessToken s
        ∧ trace s1 = trace s ++ [CallPlot a (getSubplotCalcData (calcdata (gd s)) id)]
        ∧ (∀ b, b ≠ a → heap s1 b = heap s b)
        ∧ viewInitial (heap s1 a)
          = Some (default (initialView opts) (viewInitial (heap s a)))
        ∧ map (heap s1 a)
          = Mapbox_plot (getSubplotCalcData (calcdata (gd s)) id) (_fullLayout (gd s))
                        (map (heap s a)).
Proof.
  intros Hopts Hslot. unfold plotSubplot. js_run. rewrite Hopts, Hslot.
  destruct (viewInitial (heap s a)) as [v|] eqn:Hview; simpl.
  - eexists. split; [reflexivity|]. simpl. rewrite heap_set_eq. simpl.
    split_and!; try done. intros b Hb. by rewrite heap_set_ne.
  - eexists. split; [reflexivity|]. simpl. rewrite !heap_set_eq. simpl.
    split_and!; try done. intros b Hb. by rewrite !heap_set_ne.
Qed.

(** The loop body on a subplot without a wrapper: one wrapper is constructed
    at the next free reference, stored in the slot, and given its view. *)
Lemma plotSubplot_new (id : string) (s : State) (opts : Opts) :
  entries (_fullLayout (gd s)) !! id = Some opts →
  _subplot opts = None →
  ∃ s1, plotSubplot id s = (Normal tt, s1)
        ∧ entries (_fullLayout (gd s1))
          = alter (with_subplot (next s)) id (entries (_fullLayout (gd s)))
        ∧ _subplots (_fullLayout (gd s1)) = _subplots (_fullLayout (gd s))
        ∧ _size (_fullLayout (gd s1)) = _size (_fullLayout (gd s))
        ∧ calcdata (gd s1) = calcdata (gd s)
        ∧ _context (gd s1) = _context (gd s)
        ∧ next s1 = S (next s)
        ∧ mapboxgl_version s1 = mapboxgl_version s
        ∧ mapboxgl_accessToken s1 = mapboxgl_accessToken s
        ∧ trace s1 = trace s ++ [ NewMapbox (next s) id;
                                  CallPlot (next s) (getSubplotCalcData (calcdata (gd s)) id) ]
        ∧ (∀ b, b ≠ next s → heap s1 b = heap s b)
        ∧ viewInitial (heap s1 (next s)) = Some (initialView opts).
Proof.
  intros Hopts Hslot. unfold plotSubplot. js_run. rewrite Hopts, Hslot.
  simpl. rewrite heap_set_eq. simpl.
  eexists. split; [reflexivity|]. simpl. rewrite !heap_set_eq. simpl.
  rewrite <- app_assoc. split_and!; try done.
  intros b Hb. by rewrite !heap_set_ne.
Qed.

Lemma tokenConfig_alter (s s1 : State) (id : string) (a : addr) :
  entries (_fullLayout (gd s1)) = alter (with_subplot a) id (entries (_fullLayout (gd s))) →
  _subplots (_fullLayout (gd s1)) = _subplots (_fullLayout (gd s)) →
  _context (gd s1) = _context (gd s) →
  tokenConfig s1 = tokenConfig s.
Proof.
  intros Hentries Hids Hctx. unfold tokenConfig. rewrite Hentries, Hids, Hctx.
  f_equal. apply map_eq. intros id'. rewrite !lookup_fmap.
  destruct (decide (id = id')) as [->|Hne].
  - rewrite lookup_alter_eq. by destruct (entries (_fullLayout (gd s)) !! id').
  - by rewrite lookup_alter_ne.
Qed.

(** One normal iteration of the loop of [plot] leaves the subplot plotted,
    keeps the plotted ones plotted, and changes nothing that
    [findAccessToken] or the version check read. *)
Lemma plotSubplot_normal (id : string) (s s1 : State) :
  plotSubplot id s = (Normal tt, s1) →
  plotted s1 id
  ∧ (∀ id', plotted s id' → plotted s1 id')
  ∧ tokenConfig s1 = tokenConfig s
  ∧ mapboxgl_version s1 = mapboxgl_version s.
Proof.
  intros Hrun.
  destruct (entries (_fullLayout (gd s)) !! id) as [opts|] eqn:Hopts;
    [|by rewrite plotSubplot_missing in Hrun].
  destruct (_subplot opts) as [a|] eqn:Hslot.
  - destruct (plotSubplot_reuse id s opts a Hopts Hslot)
      as (s1' & Hrun' & Hgd & _ & Hversion & _ & _ & Hheap & Hview & _).
    rewrite Hrun' in Hrun. injection Hrun as ->.
    split_and!.
    + exists opts, a. by rewrite Hgd, Hview.
    + intros id' (opts' & a' & Hopts' & Hslot' & Hview').
      exists opts', a'. rewrite Hgd. split_and!; [done..|].
      destruct (decide (a' = a)) as [->|Hne]; [by rewrite Hview|by rewrite Hheap].
    + unfold tokenConfig. by rewrite Hgd.
    + done.
  - destruct (plotSubplot_new id s opts Hopts Hslot)
      as (s1' & Hrun' & Hentries & Hids & _ & _ & Hctx & _ & Hversion & _ & _ & Hheap & Hview).
    rewrite Hrun' in Hrun. injection Hrun as ->.
    split_and!.
    + exists (with_subplot (next s) opts), (next s).
      rewrite Hentries, lookup_alter_eq, Hopts, Hview. done.
    + intros id' (opts' & a' & Hopts' & Hslot' & Hview').
      assert (id' ≠ id) as Hne by (intros ->; congruence).
      exists opts', a'. rewrite Hentries, lookup_alter_ne by done. split_and!; [done..|].
      destruct (decide (a' = next s)) as [->|Hne']; [by rewrite Hview|by rewrite Hheap].
    + by apply (tokenConfig_alter s s1 id (next s)).
    + done.
Qed.

Lemma plotSubplots_normal (ids : list string) :
  ∀ s s', plotSubplots ids s = (Normal tt, s') →
          Forall (plotted s') ids
          ∧ (∀ id, plotted s id → plotted s' id)
          ∧ tokenConfig s' = tokenConfig s
          ∧ mapboxgl_version s' = mapboxgl_version s.
Proof.
  induction ids as [|id ids IH]; intros s s' Hrun; simpl in Hrun.
  - injection Hrun as ->. by split_and!.
  - rewrite bind_run in Hrun.
    destruct (plotSubplot id s) as [[[]|e] s1] eqn:Hstep; [|done].
    destruct (plotSubplot_normal id s s1 Hstep) as (Hid & Hkeep & Hcfg & Hversion).
    destruct (IH s1 s' Hrun) as (Hids & Hkeep' & Hcfg' & Hversion').
    split_and!.
    + constructor; [by apply Hkeep'|done].
    + intros id' Hid'. by apply Hkeep', Hkeep.
    + by rewrite Hcfg'.
    + by rewrite Hversion'.
Qed.

(** On subplots that all have a wrapper the loop of [plot] constructs
    nothing and writes no slot; a view that is set stays as it is. *)
Lemma plotSubplots_reuse (ids : list string) :
  ∀ s, Forall (hasWrapper (_fullLayout (gd s))) ids →
       ∃ s', plotSubplots ids s = (Normal tt, s')
             ∧ gd s' = gd s
             ∧ next s' = next s
             ∧ mapboxgl_version s' = mapboxgl_version s
             ∧ mapboxgl_accessToken s' = mapboxgl_accessToken s
             ∧ constructed (trace s') = constructed (trace s)
             ∧ (∀ b v, viewInitial (heap s b) = Some v → viewInitial (heap s' b) = Some v)
             ∧ (Forall (plotted s) ids →
                ∀ b, viewInitial (heap s' b) = viewInitial (heap s b)).
Proof.
  induction ids as [|id ids IH]; intros s Hall; simpl.
  - exists s. by split_and!.
  - inversion Hall as [|?? (opts & a & Hopts & Hslot) Hall']; subst.
    destruct (plotSubplot_reuse id s opts a Hopts Hslot)
      as (s1 & Hrun & Hgd & Hnext & Hversion & Htoken & Htrace & Hheap & Hview & _).
    rewrite bind_run, Hrun.
    destruct (IH s1) as (s' & Hrun' & Hgd' & Hnext' & Hversion' & Htoken' & Htrace'
                         & Hsome' & Hviews'); [by rewrite Hgd|].
    exists s'. split_and!; try congruence.
    + rewrite Htrace', Htrace. unfold constructed. rewrite omap_app. simpl.
      by rewrite app_nil_r.
    + intros b v Hb. apply Hsome'.
      destruct (decide (b = a)) as [->|Hne]; [by rewrite Hview, Hb|by rewrite Hheap].
    + intros Hplotted b. inversion Hplotted as [|?? Hid Hplotted']; subst.
      assert (∀ b, viewInitial (heap s1 b) = viewInitial (heap s b)) as Hsame.
      { intros b'. destruct (decide (b' = a)) as [->|Hne]; [|by rewrite Hheap].
        destruct Hid as (opts' & a' & Hopts' & Hslot' & [v Hv]).
        assert (a' = a) as -> by congruence. by rewrite Hview, Hv. }
      rewrite Hviews', Hsame; [done|].
      eapply Forall_impl; [exact Hplotted'|].
      intros id' (opts' & a' & Hopts' & Hslot' & Hview').
      exists opts', a'. by rewrite Hgd, Hsame.
Qed.

Lemma constructed_logs (evs : list Event) :
  Forall (λ e, isLog e = true) evs → constructed evs = [].
Proof.
  induction 1 as [|e evs He _ IH]; [done|].
  destruct e; try discriminate; exact IH.
Qed.

Lemma plotted_hasWrapper (s : State) (ids : list string) :
  Forall (plotted s) ids → Forall (hasWrapper (_fullLayout (gd s))) ids.
Proof.
  intros Hall. eapply Forall_impl; [exact Hall|].
  intros id (opts & a & Hopts & Hslot & _). by exists opts, a.
Qed.

(** What [plot] does once the version check has passed. *)
Lemma plot_run (s : State) :
  mapboxgl_version s = requiredVersion →
  plot s =
  match findAccessToken (_subplots (_fullLayout (gd s))) s with
  | (Normal accessToken, s') =>
      match _subplots (_fullLayout (gd s)) with
      | Some ids => plotSubplots ids (with_accessToken accessToken s')
      | None => (Throw TypeError, with_accessToken accessToken s')
      end
  | (Throw e, s') => (Throw e, s')
  end.
Proof.
  intros Hversion. unfold plot. rewrite bind_run. simpl.
  rewrite decide_True by done. rewrite bind_run.
  destruct (findAccessToken _ s) as [[accessToken|e] s']; [|done].
  rewrite bind_run. simpl. rewrite bind_run.
  by destruct (_subplots (_fullLayout (gd s))).
Qed.

(** C6: after a [plot] that completed, a second [plot] on the same page
    completes too, constructs no wrapper (the trace gains no [new Mapbox],
    no reference is allocated), leaves the layout and so every slot as it
    is, each listed subplot having its wrapper with a view set, and leaves
    the [viewInitial] of every wrapper unchanged. *)
Theorem plot_twice (s s1 : State) :
  plot s = (Normal tt, s1) →
  ∃ s2, plot s1 = (Normal tt, s2)
        ∧ constructed (trace s2) = constructed (trace s1)
        ∧ next s2 = next s1
        ∧ _fullLayout (gd s2) = _fullLayout (gd s1)
        ∧ (∃ ids, _subplots (_fullLayout (gd s1)) = Some ids ∧ Forall (plotted s1) ids)
        ∧ (∀ a, viewInitial (heap s2 a) = viewInitial (heap s1 a)).
Proof.
  intros Hfirst.
  destruct (decide (mapboxgl_version s = requiredVersion)) as [Hversion|Hversion];
    [|unfold plot in Hfirst; rewrite bind_run in Hfirst; simpl in Hfirst;
      by rewrite decide_False in Hfirst].
  rewrite plot_run in Hfirst by done.
  destruct (findAccessToken_frame (_subplots (_fullLayout (gd s))) s) as (evs & Hsf & _).
  destruct (findAccessToken _ s) as [[accessToken|e] sf] eqn:Hfind; [|done].
  simpl in Hsf. subst sf.
  destruct (_subplots (_fullLayout (gd s))) as [ids|] eqn:Hids; [|done].
  destruct (plotSubplots_normal ids _ s1 Hfirst) as (Hplotted & _ & Hcfg & Hversion1).
  simpl in Hversion1.
  assert (tokenConfig s1 = tokenConfig s) as Hcfg1 by (by rewrite Hcfg).
  assert (_subplots (_fullLayout (gd s1)) = Some ids) as Hids1.
  { rewrite <- Hids. by injection Hcfg1. }
  rewrite plot_run by congruence. rewrite Hids1.
  pose proof (findAccessToken_config (Some ids) s s1 Hcfg1) as Hsame.
  rewrite Hfind in Hsame. simpl in Hsame.
  destruct (findAccessToken_frame (Some ids) s1) as (evs1 & Hsf1 & Hlogs1).
  destruct (findAccessToken (Some ids) s1) as [c1 sf1]. simpl in Hsame, Hsf1. subst c1 sf1.
  destruct (plotSubplots_reuse ids (with_accessToken accessToken (with_trace (trace s1 ++ evs1) s1)))
    as (s2 & Hrun2 & Hgd2 & Hnext2 & _ & _ & Hnew2 & _ & Hviews2).
  { by apply plotted_hasWrapper. }
  exists s2. split_and!.
  - done.
  - rewrite Hnew2. simpl. unfold constructed. rewrite omap_app.
    fold (constructed evs1). rewrite (constructed_logs evs1 Hlogs1). by rewrite app_nil_r.
  - done.
  - by rewrite Hgd2.
  - by exists ids.
  - intros a. by rewrite Hviews2.
Qed.

(** ** clean *)

Lemma cleanSubplot_kept (new old : Layout) (key : string) (s : State) :
  is_Some (entries new !! key) →
  cleanSubplot new old key s = (Normal tt, s).
Proof. intros [opts Hnew]. unfold cleanSubplot. by rewrite Hnew. Qed.

Lemma cleanSubplot_no_wrapper (new old : Layout) (key : string) (opts : Opts) (s : State) :
  entries new !! key = None →
  entries old !! key = Some opts →
  _subplot opts = None →
  cleanSubplot new old key s = (Normal tt, s).
Proof.
  intros Hnew Hold Hslot. unfold cleanSubplot. rewrite Hnew. js_run.
  by rewrite Hold, Hslot.
Qed.

Lemma cleanSubplot_destroy (new old : Layout) (key : string) (opts : Opts) (a : addr)
    (s : State) :
  entries new !! key = None →
  entries old !! key = Some opts →
  _subplot opts = Some a →
  ∃ s1, cleanSubplot new old key s = (Normal tt, s1)
        ∧ gd s1 = gd s
        ∧ next s1 = next s
        ∧ mapboxgl_version s1 = mapboxgl_version s
        ∧ mapboxgl_accessToken s1 = mapboxgl_accessToken s
        ∧ trace s1 = trace s ++ [CallDestroy a]
        ∧ (∀ b, b ≠ a → heap s1 b = heap s b)
        ∧ viewInitial (heap s1 a) = viewInitial (heap s a)
        ∧ map (heap s1 a) = Mapbox_destroy (map (heap s a)).
Proof.
  intros Hnew Hold Hslot. unfold cleanSubplot. rewrite Hnew. js_run.
  rewrite Hold, Hslot. eexists. split; [reflexivity|]. simpl.
  rewrite heap_set_eq. split_and!; try done.
  intros b Hb. by rewrite heap_set_ne.
Qed.

(** The loop of [clean] on any key list: it completes when the removed keys
    have their old options, calls [destroy] on exactly the wrappers of the
    removed keys, in order, and writes no other wrapper. *)
Lemma cleanSubplots_run (new old : Layout) (keys : list string) :
  ∀ s, hasEntries old (filter (λ key, entries new !! key = None) keys) →
       ∃ s', cleanSubplots new old keys s = (Normal tt, s')
             ∧ gd s' = gd s
             ∧ next s' = next s
             ∧ mapboxgl_version s' = mapboxgl_version s
             ∧ mapboxgl_accessToken s' = mapboxgl_accessToken s
             ∧ trace s' = trace s
                 ++ (CallDestroy <$> wrappersOf old (filter (λ key, entries new !! key = None) keys))
             ∧ (∀ b, b ∉ wrappersOf old (filter (λ key, entries new !! key = None) keys) →
                     heap s' b = heap s b)
             ∧ (∀ b, viewInitial (heap s' b) = viewInitial (heap s b)).
Proof.
  induction keys as [|key keys IH]; intros s Hwf; simpl.
  - exists s. rewrite app_nil_r. by split_and!.
  - rewrite bind_run. rewrite filter_cons in Hwf |- *.
    destruct (decide (entries new !! key = None)) as [Hnew|Hnew].
    + inversion Hwf as [|?? [opts Hold] Hwf']; subst.
      unfold wrappersOf. simpl. rewrite Hold. simpl.
      destruct (_subplot opts) as [a|] eqn:Hslot.
      * destruct (cleanSubplot_destroy new old key opts a s Hnew Hold Hslot)
          as (s1 & -> & Hgd & Hnext & Hversion & Htoken & Htrace & Hheap & Hview & _).
        destruct (IH s1 Hwf') as (s' & -> & Hgd' & Hnext' & Hversion' & Htoken' & Htrace'
                                  & Hheap' & Hview').
        exists s'. split_and!; try congruence.
        -- rewrite Htrace', Htrace. by rewrite <- app_assoc.
        -- intros b Hb. apply not_elem_of_cons in Hb as [Hne Hb].
           by rewrite Hheap', Hheap.
        -- intros b. rewrite Hview'.
           destruct (decide (b = a)) as [->|Hne]; [done|by rewrite Hheap].
      * rewrite (cleanSubplot_no_wrapper new old key opts s Hnew Hold Hslot).
        by apply IH.
    + rewrite cleanSubplot_kept; [by apply IH|].
      by destruct (entries new !! key).
Qed.

Lemma cleanSubplots_unplotted (new old : Layout) (keys : list string) (s : State) :
  hasEntries old (filter (λ key, entries new !! key = None) keys) →
  (∀ key opts, key ∈ filter (λ key, entries new !! key = None) keys →
               entries old !! key = Some opts → _subplot opts = None) →
  cleanSubplots new old keys s = (Normal tt, s).
Proof.
  induction keys as [|key keys IH]; intros Hwf Hnone; simpl; [done|].
  rewrite bind_run. rewrite filter_cons in Hwf, Hnone.
  destruct (decide (entries new !! key = None)) as [Hnew|Hnew].
  - inversion Hwf as [|?? [opts Hold] Hwf']; subst.
    rewrite (cleanSubplot_no_wrapper new old key opts s Hnew Hold).
    + apply IH; [done|]. intros key' opts' Hin. apply Hnone. by right.
    + eapply Hnone; [by left|done].
  - rewrite cleanSubplot_kept; [by apply IH|].
    by destruct (entries new !! key).
Qed.

(** C7: [clean] completes when the removed ids have their old options; it
    calls [destroy] on exactly the wrappers of the previous ids that the new
    layout lacks and that have a wrapper, in order, and writes no other
    wrapper, no layout and no [viewInitial].  In particular, for the old ids
    A and B with two wrappers and a new layout with A only, the one call is
    [destroy] on B's wrapper, and A's wrapper is as it was. *)
Theorem clean_destroys_removed (new old : Layout) (s : State) :
  (hasEntries old (removedKeys new old) →
   ∃ s', clean new old s = (Normal tt, s')
         ∧ trace s' = trace s ++ (CallDestroy <$> wrappersOf old (removedKeys new old))
         ∧ (∀ b, b ∉ wrappersOf old (removedKeys new old) → heap s' b = heap s b)
         ∧ (∀ b, viewInitial (heap s' b) = viewInitial (heap s b))
         ∧ gd s' = gd s
         ∧ next s' = next s)
  ∧ (∀ (ids : list string) (A B : string) (optsA optsB : Opts) (wA wB : addr),
       _subplots old = Some ids →
       ids ≡ₚ [A; B] →
       entries old !! A = Some optsA → _subplot optsA = Some wA →
       entries old !! B = Some optsB → _subplot optsB = Some wB →
       wA ≠ wB →
       is_Some (entries new !! A) →
       entries new !! B = None →
       ∃ s', clean new old s = (Normal tt, s')
             ∧ trace s' = trace s ++ [CallDestroy wB]
             ∧ heap s' wA = heap s wA
             ∧ gd s' = gd s).
Proof.
  assert (hasEntries old (removedKeys new old) →
          ∃ s', clean new old s = (Normal tt, s')
                ∧ trace s' = trace s ++ (CallDestroy <$> wrappersOf old (removedKeys new old))
                ∧ (∀ b, b ∉ wrappersOf old (removedKeys new old) → heap s' b = heap s b)
                ∧ (∀ b, viewInitial (heap s' b) = viewInitial (heap s b))
                ∧ gd s' = gd s
                ∧ next s' = next s) as Hgeneral.
  { intros Hwf.
    destruct (cleanSubplots_run new old (default [] (_subplots old)) s Hwf)
      as (s' & Hrun & Hgd & Hnext & _ & _ & Htrace & Hheap & Hview).
    exists s'. by split_and!. }
  split; [done|].
  intros ids A B optsA optsB wA wB Hids Hperm HA HslotA HB HslotB Hne [optsA' HnewA] HnewB.
  assert (removedKeys new old = [B]) as Hremoved.
  { unfold removedKeys. rewrite Hids. simpl.
    apply Permutation_sym, Permutation_length_2_inv in Hperm as [->| ->];
      rewrite !filter_cons, filter_nil;
      rewrite (decide_True _ _ HnewB); rewrite decide_False; by rewrite ?HnewA. }
  destruct Hgeneral as (s' & Hrun & Htrace & Hheap & _ & Hgd & _).
  { rewrite Hremoved. repeat constructor. by rewrite HB. }
  rewrite Hremoved in Htrace, Hheap. unfold wrappersOf in Htrace, Hheap.
  simpl in Htrace, Hheap. rewrite HB in Htrace, Hheap. simpl in Htrace, Hheap.
  rewrite HslotB in Htrace, Hheap.
  exists s'. split_and!; [done..| |done].
  apply Hheap. by intros ->%list_elem_of_singleton.
Qed.

(** C10: the loop body of [clean] does nothing on a removed id whose old
    options hold no wrapper; and when no removed id has a wrapper, [clean]
    completes and leaves the page as it was, with no [destroy] call. *)
Theorem clean_skips_unplotted (new old : Layout) (s : State) :
  (∀ key opts, entries new !! key = None → entries old !! key = Some opts →
               _subplot opts = None →
               cleanSubplot new old key s = (Normal tt, s))
  ∧ (hasEntries old (removedKeys new old) →
     (∀ key opts, key ∈ removedKeys new old → entries old !! key = Some opts →
                  _subplot opts = None) →
     clean new old s = (Normal tt, s)).
Proof.
  split.
  - intros key opts. apply cleanSubplot_no_wrapper.
  - intros Hwf Hnone. by apply cleanSubplots_unplotted.
Qed.

(** ** updateFx *)

Lemma updateFxSubplot_refresh (id : string) (s : State) (opts : Opts) (a : addr) :
  entries (_fullLayout (gd s)) !! id = Some opts →
  _subplot opts = Some a →
  ∃ s1, updateFxSubplot id s = (Normal tt, s1)
        ∧ gd s1 = gd s
        ∧ next s1 = next s
        ∧ trace s1 = trace s ++ [CallUpdateFx a]
        ∧ (∀ b, b ≠ a → heap s1 b = heap s b)
        ∧ viewInitial (heap s1 a) = viewInitial (heap s a)
        ∧ map (heap s1 a) = Mapbox_updateFx (_fullLayout (gd s)) (map (heap s a)).
Proof.
  intros Hopts Hslot. unfold updateFxSubplot. js_run. rewrite Hopts, Hslot.
  eexists. split; [reflexivity|]. simpl. rewrite heap_set_eq.
  split_and!; try done. intros b Hb. by rewrite heap_set_ne.
Qed.

Lemma updateFxSubplot_no_wrapper (id : string) (s : State) :
  ¬ hasWrapper (_fullLayout (gd s)) id →
  updateFxSubplot id s = (Throw TypeError, s).
Proof.
  intros Hno. unfold updateFxSubplot. js_run.
  destruct (entries (_fullLayout (gd s)) !! id) as [opts|] eqn:Hopts; [|done].
  destruct (_subplot opts) as [a|] eqn:Hslot; [|done].
  destruct Hno. by exists opts, a.
Qed.

Lemma updateFxSubplots_run (ids : list string) :
  ∀ s, Forall (hasWrapper (_fullLayout (gd s))) ids →
       ∃ s', updateFxSubplots ids s = (Normal tt, s')
             ∧ gd s' = gd s
             ∧ next s' = next s
             ∧ trace s' = trace s ++ (CallUpdateFx <$> wrappersOf (_fullLayout (gd s)) ids)
             ∧ (∀ b, b ∉ wrappersOf (_fullLayout (gd s)) ids → heap s' b = heap s b)
             ∧ (∀ b, viewInitial (heap s' b) = viewInitial (heap s b)).
Proof.
  induction ids as [|id ids IH]; intros s Hall; simpl.
  - exists s. rewrite app_nil_r. by split_and!.
  - inversion Hall as [|?? (opts & a & Hopts & Hslot) Hall']; subst.
    destruct (updateFxSubplot_refresh id s opts a Hopts Hslot)
      as (s1 & Hrun & Hgd & Hnext & Htrace & Hheap & Hview & _).
    rewrite bind_run, Hrun.
    destruct (IH s1) as (s' & -> & Hgd' & Hnext' & Htrace' & Hheap' & Hview');
      [by rewrite Hgd|].
    unfold wrappersOf. simpl. rewrite Hopts. simpl. rewrite Hslot.
    fold (wrappersOf (_fullLayout (gd s)) ids). rewrite Hgd in Htrace', Hheap'.
    exists s'. split_and!; try congruence.
    + rewrite Htrace', Htrace. by rewrite <- app_assoc.
    + intros b Hb. apply not_elem_of_cons in Hb as [Hne Hb]. by rewrite Hheap', Hheap.
    + intros b. rewrite Hview'.
      destruct (decide (b = a)) as [->|Hne]; [done|by rewrite Hheap].
Qed.

Lemma updateFxSubplots_throw (before after : list string) (id : string) :
  ∀ s, Forall (hasWrapper (_fullLayout (gd s))) before →
       ¬ hasWrapper (_fullLayout (gd s)) id →
       ∃ s', updateFxSubplots (before ++ id :: after) s = (Throw TypeError, s')
             ∧ gd s' = gd s
             ∧ next s' = next s
             ∧ trace s' = trace s ++ (CallUpdateFx <$> wrappersOf (_fullLayout (gd s)) before).
Proof.
  induction before as [|id' before IH]; intros s Hall Hno; simpl.
  - rewrite bind_run, updateFxSubplot_no_wrapper by done.
    exists s. by rewrite app_nil_r.
  - inversion Hall as [|?? (opts & a & Hopts & Hslot) Hall']; subst.
    destruct (updateFxSubplot_refresh id' s opts a Hopts Hslot)
      as (s1 & Hrun & Hgd & Hnext & Htrace & _).
    rewrite bind_run, Hrun.
    destruct (IH s1) as (s' & -> & Hgd' & Hnext' & Htrace'); [by rewrite Hgd..|].
    unfold wrappersOf. simpl. rewrite Hopts. simpl. rewrite Hslot.
    fold (wrappersOf (_fullLayout (gd s)) before). rewrite Hgd in Htrace'.
    exists s'. split_and!; try congruence.
    rewrite Htrace', Htrace. by rewrite <- app_assoc.
Qed.

(** C9 (amended): when every current subplot id has a wrapper, [updateFx]
    completes, calls [updateFx] on the wrapper of each id, in order,
    constructs no wrapper and writes no layout; an id without a wrapper is
    not skipped: [updateFx] throws a TypeError at the first such id, after
    the calls on the wrappers of the ids before it. *)
Theorem updateFx_refreshes_wrappers (s : State) (ids : list string) :
  let layout := _fullLayout (gd s) in
  _subplots layout = Some ids →
  (Forall (hasWrapper layout) ids →
   ∃ s', updateFx s = (Normal tt, s')
         ∧ trace s' = trace s ++ (CallUpdateFx <$> wrappersOf layout ids)
         ∧ gd s' = gd s
         ∧ next s' = next s
         ∧ (∀ b, b ∉ wrappersOf layout ids → heap s' b = heap s b))
  ∧ (∀ before id after,
       ids = before ++ id :: after →
       Forall (hasWrapper layout) before →
       ¬ hasWrapper layout id →
       ∃ s', updateFx s = (Throw TypeError, s')
             ∧ trace s' = trace s ++ (CallUpdateFx <$> wrappersOf layout before)
             ∧ gd s' = gd s
             ∧ next s' = next s).
Proof.
  intros layout Hids. split.
  - intros Hall. unfold updateFx. rewrite bind_run. simpl. rewrite bind_run.
    fold layout. rewrite Hids. simpl.
    destruct (updateFxSubplots_run ids s Hall) as (s' & -> & Hgd & Hnext & Htrace & Hheap & _).
    exists s'. by split_and!.
  - intros before id after -> Hall Hno. unfold updateFx. rewrite bind_run. simpl.
    rewrite bind_run. fold layout. rewrite Hids. simpl.
    destruct (updateFxSubplots_throw before after id s Hall Hno)
      as (s' & -> & Hgd & Hnext & Htrace).
    exists s'. by split_and!.
Qed.

(** ** toSVG *)

Lemma imageAttr_placedAt (imageData : string) (size : Size.T float) (dom : Domain.T float) :
  placedAt size dom (imageAttr imageData size dom).
Proof. by repeat split. Qed.

Lemma toSVGSubplot_run (id : string) (s : State) (opts : Opts) (a : addr) :
  entries (_fullLayout (gd s)) !! id = Some opts →
  _subplot opts = Some a →
  ∃ s1, toSVGSubplot id s = (Normal tt, s1)
        ∧ gd s1 = gd s
        ∧ next s1 = next s
        ∧ mapboxgl_version s1 = mapboxgl_version s
        ∧ trace s1 = trace s
            ++ [ CallToImage a;
                 AppendImage (imageAttr (Mapbox_toImage (map (heap s a)))
                                        (_size (_fullLayout (gd s))) (domain opts));
                 CallDestroy a ]
        ∧ (∀ b, b ≠ a → heap s1 b = heap s b)
        ∧ viewInitial (heap s1 a) = viewInitial (heap s a)
        ∧ map (heap s1 a) = Mapbox_destroy (map (heap s a)).
Proof.
  intros Hopts Hslot. unfold toSVGSubplot. js_run. rewrite Hopts, Hslot.
  eexists. split; [reflexivity|]. simpl. rewrite heap_set_eq, <- !app_assoc.
  split_and!; try done. intros b Hb. by rewrite heap_set_ne.
Qed.

Lemma toSVGSubplots_run (ids : list string) :
  ∀ s, Forall (hasWrapper (_fullLayout (gd s))) ids →
       ∃ s' newImages,
         toSVGSubplots ids s = (Normal tt, s')
         ∧ gd s' = gd s
         ∧ next s' = next s
         ∧ mapboxgl_version s' = mapboxgl_version s
         ∧ images (trace s') = images (trace s) ++ newImages
         ∧ Forall2 (λ image opts, placedAt (_size (_fullLayout (gd s))) (domain opts) image)
                   newImages (optsOf (_fullLayout (gd s)) ids)
         ∧ destroyed (trace s') = destroyed (trace s) ++ wrappersOf (_fullLayout (gd s)) ids
         ∧ constructed (trace s') = constructed (trace s)
         ∧ (∀ b, b ∉ wrappersOf (_fullLayout (gd s)) ids → heap s' b = heap s b)
         ∧ (∀ b, viewInitial (heap s' b) = viewInitial (heap s b)).
Proof.
  induction ids as [|id ids IH]; intros s Hall; simpl.
  - exists s, []. rewrite !app_nil_r. by split_and!.
  - inversion Hall as [|?? (opts & a & Hopts & Hslot) Hall']; subst.
    destruct (toSVGSubplot_run id s opts a Hopts Hslot)
      as (s1 & Hrun & Hgd & Hnext & Hversion & Htrace & Hheap & Hview & _).
    rewrite bind_run, Hrun.
    destruct (IH s1) as (s' & newImages & -> & Hgd' & Hnext' & Hversion' & Himages' & Hplaced'
                         & Hdestroyed' & Hnew' & Hheap' & Hview');
      [by rewrite Hgd|].
    unfold wrappersOf, optsOf. simpl. rewrite Hopts. simpl. rewrite Hslot.
    fold (wrappersOf (_fullLayout (gd s)) ids). fold (optsOf (_fullLayout (gd s)) ids).
    rewrite Hgd in Hplaced', Hdestroyed', Hheap'.
    eexists s', (_ :: newImages). split_and!; try congruence.
    + rewrite Himages', Htrace. unfold images. rewrite omap_app. simpl.
      by rewrite <- app_assoc.
    + constructor; [apply imageAttr_placedAt|done].
    + rewrite Hdestroyed', Htrace. unfold destroyed. rewrite omap_app. simpl.
      by rewrite <- app_assoc.
    + rewrite Hnew', Htrace. unfold constructed. rewrite omap_app. simpl.
      by rewrite app_nil_r.
    + intros b Hb. apply not_elem_of_cons in Hb as [Hne Hb]. by rewrite Hheap', Hheap.
    + intros b. rewrite Hview'.
      destruct (decide (b = a)) as [->|Hne]; [done|by rewrite Hheap].
Qed.

(** On a page whose listed subplots all have a wrapper, [plot] constructs
    no wrapper and writes no layout, however it completes. *)
Lemma plot_reuse (s : State) (ids : list string) :
  _subplots (_fullLayout (gd s)) = Some ids →
  Forall (hasWrapper (_fullLayout (gd s))) ids →
  constructed (trace (snd (plot s))) = constructed (trace s)
  ∧ next (snd (plot s)) = next s
  ∧ gd (snd (plot s)) = gd s.
Proof.
  intros Hids Hall.
  destruct (decide (mapboxgl_version s = requiredVersion)) as [Hversion|Hversion].
  2:{ unfold plot. rewrite bind_run. simpl. by rewrite decide_False. }
  rewrite plot_run by done. rewrite Hids.
  destruct (findAccessToken_frame (Some ids) s) as (evs & Hsf & Hlogs).
  assert (constructed (trace s ++ evs) = constructed (trace s)) as Hevs.
  { unfold constructed. rewrite omap_app. fold (constructed evs).
    rewrite (constructed_logs evs Hlogs). by rewrite app_nil_r. }
  destruct (findAccessToken (Some ids) s) as [[accessToken|e] sf]; simpl in Hsf; subst sf;
    [|done].
  destruct (plotSubplots_reuse ids (with_accessToken accessToken (with_trace (trace s ++ evs) s)))
    as (s' & -> & Hgd & Hnext & _ & _ & Hnew & _); [done|].
  simpl. by rewrite Hgd, Hnext, Hnew.
Qed.

Lemma snapshots_agree (wrappers : list addr) :
  ∀ e e' : addr → engine,
    (∀ a, a ∈ wrappers → e a = e' a) →
    snapshots e wrappers = snapshots e' wrappers.
Proof.
  induction wrappers as [|a rest IH]; intros e e' Hagree; simpl; [done|].
  rewrite (Hagree a) by (by left). f_equal. apply IH.
  intros b Hb. case_decide; [done|]. apply Hagree. by right.
Qed.

Lemma snapshots_NoDup (wrappers : list addr) (e : addr → engine) :
  NoDup wrappers →
  snapshots e wrappers = (λ a, Mapbox_toImage (e a)) <$> wrappers.
Proof.
  revert e. induction wrappers as [|a rest IH]; intros e Hnodup; simpl; [done|].
  apply NoDup_cons in Hnodup as [Hnotin Hnodup]. f_equal.
  transitivity (snapshots e rest); [|by apply IH].
  apply snapshots_agree. intros b Hb. rewrite decide_False; [done|]. by intros ->.
Qed.

Lemma exportCalls_projections (wrappers : list addr) :
  ∀ newImages : list (Image.T float),
    length newImages = length wrappers →
    images (mjoin (zip_with exportCalls wrappers newImages)) = newImages
    ∧ destroyed (mjoin (zip_with exportCalls wrappers newImages)) = wrappers
    ∧ constructed (mjoin (zip_with exportCalls wrappers newImages)) = [].
Proof.
  induction wrappers as [|a rest IH]; intros [|image newImages] Hlen; try done.
  simpl in Hlen. destruct (IH newImages) as (Himages & Hdestroyed & Hnew); [lia|].
  change (mjoin (zip_with exportCalls (a :: rest) (image :: newImages)))
    with (exportCalls a image ++ mjoin (zip_with exportCalls rest newImages)).
  unfold images, destroyed, constructed in *.
  rewrite !omap_app, Himages, Hdestroyed, Hnew. done.
Qed.

(** The loop of [toSVG] on subplots that have their wrapper, from engines
    that are [e]. *)
Lemma toSVGSubplots_trace (ids : list string) :
  ∀ (s : State) (e : addr → engine),
    (∀ a, map (heap s a) = e a) →
    Forall (hasWrapper (_fullLayout (gd s))) ids →
    ∃ s' newImages,
      toSVGSubplots ids s = (Normal tt, s')
      ∧ gd s' = gd s
      ∧ trace s' = trace s
          ++ mjoin (zip_with exportCalls (wrappersOf (_fullLayout (gd s)) ids) newImages)
      ∧ length newImages = length (wrappersOf (_fullLayout (gd s)) ids)
      ∧ length newImages = length ids
      ∧ Forall2 (λ image opts, placedAt (_size (_fullLayout (gd s))) (domain opts) image)
                newImages (optsOf (_fullLayout (gd s)) ids)
      ∧ Image.xlink_href <$> newImages = snapshots e (wrappersOf (_fullLayout (gd s)) ids).
Proof.
  induction ids as [|id ids IH]; intros s e He Hall.
  - exists s, []. simpl. rewrite app_nil_r. by split_and!.
  - inversion Hall as [|?? (opts & a & Hopts & Hslot) Hall']; subst.
    destruct (toSVGSubplot_run id s opts a Hopts Hslot)
      as (s1 & Hrun & Hgd & _ & _ & Htrace & Hheap & _ & Hmap).
    simpl. rewrite bind_run, Hrun.
    destruct (IH s1 (λ b, if decide (b = a) then Mapbox_destroy (e a) else e b))
      as (s' & newImages & -> & Hgd' & Htrace' & Hlen' & Hlen'' & Hplaced' & Hhrefs').
    { intros b. case_decide; [subst b; by rewrite Hmap, He|by rewrite Hheap]. }
    { by rewrite Hgd. }
    rewrite Hgd in Htrace', Hlen', Hplaced', Hhrefs'.
    unfold wrappersOf, optsOf. simpl. rewrite Hopts. simpl. rewrite Hslot.
    fold (wrappersOf (_fullLayout (gd s)) ids). fold (optsOf (_fullLayout (gd s)) ids).
    eexists s', (_ :: newImages). split_and!.
    + done.
    + congruence.
    + rewrite Htrace', Htrace. simpl. by rewrite <- app_assoc.
    + simpl. by rewrite Hlen'.
    + simpl. by rewrite Hlen''.
    + constructor; [apply imageAttr_placedAt|done].
    + rewrite fmap_cons, Hhrefs'. simpl. by rewrite He.
Qed.

(** C8 (amended): when every listed subplot has its wrapper, [toSVG]
    completes and makes, for each subplot in order, the call of [toImage],
    the append of the image and then the call of [destroy].  Each image is
    placed at [x = l + w * domain.x[0]], [y = t + h * (1 - domain.y[1])],
    [width = w * (domain.x[1] - domain.x[0])],
    [height = h * (domain.y[1] - domain.y[0])] in binary64 arithmetic, and
    its href is what [toImage] returned for the wrapper before its
    [destroy]: when no two subplots share a wrapper, the snapshot of the
    wrapper as it was before the export.  The layout is not written, so
    every slot keeps its wrapper and a [plot] that follows constructs no
    wrapper.  For the domain x:[0.2,0.8], y:[0.1,0.9] on an 800x600 canvas
    with zero margins the rectangle is (160, 60, 480, 480) in exact
    arithmetic, and (160, 59.999999999999986, 480.00000000000006, 480) as
    computed. *)
Theorem toSVG_places_and_destroys :
  (∀ (s : State) (ids : list string),
     let layout := _fullLayout (gd s) in
     _subplots layout = Some ids →
     Forall (hasWrapper layout) ids →
     ∃ s' newImages,
       toSVG s = (Normal tt, s')
       ∧ trace s' = trace s ++ mjoin (zip_with exportCalls (wrappersOf layout ids) newImages)
       ∧ length newImages = length ids
       ∧ images (trace s') = images (trace s) ++ newImages
       ∧ Forall2 (λ image opts, placedAt (_size layout) (domain opts) image)
                 newImages (optsOf layout ids)
       ∧ Image.xlink_href <$> newImages
         = snapshots (λ a, map (heap s a)) (wrappersOf layout ids)
       ∧ (NoDup (wrappersOf layout ids) →
          Image.xlink_href <$> newImages
          = (λ a, Mapbox_toImage (map (heap s a))) <$> wrappersOf layout ids)
       ∧ destroyed (trace s') = destroyed (trace s) ++ wrappersOf layout ids
       ∧ gd s' = gd s
       ∧ constructed (trace (snd (plot s'))) = constructed (trace s')
       ∧ next (snd (plot s')) = next s'
       ∧ gd (snd (plot s')) = gd s)
  ∧ imageRect sample_size sample_domain
    = (160, 59.999999999999986, 480.00000000000006, 480)%float
  ∧ (let '(x, y, width, height) := imageRect exact_size exact_domain in
     x == 160 ∧ y == 60 ∧ width == 480 ∧ height == 480)%Q.
Proof.
  split_and!.
  - intros s ids layout Hids Hall.
    unfold toSVG. rewrite bind_run. simpl. rewrite bind_run. fold layout. rewrite Hids. simpl.
    destruct (toSVGSubplots_trace ids s (λ a, map (heap s a)) (λ a, eq_refl) Hall)
      as (s' & newImages & -> & Hgd & Htrace & Hlen & Hlen' & Hplaced & Hhrefs).
    fold layout in Htrace, Hlen, Hplaced, Hhrefs.
    destruct (exportCalls_projections (wrappersOf layout ids) newImages Hlen)
      as (Himages & Hdestroyed & _).
    destruct (plot_reuse s' ids) as (Hnew & Hnext' & Hgd'); [by rewrite Hgd..|].
    exists s', newImages. split_and!; try done.
    + rewrite Htrace. unfold images in *. by rewrite omap_app, Himages.
    + intros Hnodup. by rewrite Hhrefs, snapshots_NoDup.
    + rewrite Htrace. unfold destroyed in *. by rewrite omap_app, Hdestroyed.
    + by rewrite Hgd'.
  - reflexivity.
  - vm_compute. by repeat split.
Qed.

(** ** Further properties *)

(** *** The loops as [forEach] *)

Lemma forEach_invariant (body : string → Js unit) (P : State → Prop) :
  (∀ id s, P s → P (snd (body id s))) →
  ∀ ids s, P s → P (snd (forEach body ids s)).
Proof.
  intros Hstep. induction ids as [|id ids IH]; intros s Hs; simpl; [done|].
  rewrite bind_run. pose proof (Hstep id s Hs) as Hs1.
  destruct (body id s) as [[[]|e] s1]; simpl in *; [by apply IH|done].
Qed.

Lemma plotSubplots_forEach (ids : list string) (s : State) :
  plotSubplots ids s = forEach plotSubplot ids s.
Proof.
  revert s. induction ids as [|id ids IH]; intros s; simpl; [done|].
  rewrite !bind_run. by destruct (plotSubplot id s) as [[[]|e] s1].
Qed.

Lemma toSVGSubplots_forEach (ids : list string) (s : State) :
  toSVGSubplots ids s = forEach toSVGSubplot ids s.
Proof.
  revert s. induction ids as [|id ids IH]; intros s; simpl; [done|].
  rewrite !bind_run. by destruct (toSVGSubplot id s) as [[[]|e] s1].
Qed.

Lemma updateFxSubplots_forEach (ids : list string) (s : State) :
  updateFxSubplots ids s = forEach updateFxSubplot ids s.
Proof.
  revert s. induction ids as [|id ids IH]; intros s; simpl; [done|].
  rewrite !bind_run. by destruct (updateFxSubplot id s) as [[[]|e] s1].
Qed.

Lemma cleanSubplots_forEach (new old : Layout) (keys : list string) (s : State) :
  cleanSubplots new old keys s = forEach (cleanSubplot new old) keys s.
Proof.
  revert s. induction keys as [|key keys IH]; intros s; simpl; [done|].
  rewrite !bind_run. by destruct (cleanSubplot new old key s) as [[[]|e] s1].
Qed.

(** What [findAccessToken] leaves behind, whatever it returns. *)
Lemma findAccessToken_state (mapboxIds : option (list string)) (s : State) :
  gd (snd (findAccessToken mapboxIds s)) = gd s
  ∧ next (snd (findAccessToken mapboxIds s)) = next s
  ∧ heap (snd (findAccessToken mapboxIds s)) = heap s
  ∧ mapboxgl_version (snd (findAccessToken mapboxIds s)) = mapboxgl_version s
  ∧ mapboxgl_accessToken (snd (findAccessToken mapboxIds s)) = mapboxgl_accessToken s
  ∧ constructed (trace (snd (findAccessToken mapboxIds s))) = constructed (trace s)
  ∧ plotCalls (trace (snd (findAccessToken mapboxIds s))) = plotCalls (trace s).
Proof.
  destruct (findAccessToken_frame mapboxIds s) as (evs & -> & Hlogs). simpl.
  split_and!; try done.
  - unfold constructed. rewrite omap_app. fold (constructed evs).
    rewrite (constructed_logs evs Hlogs). by rewrite app_nil_r.
  - unfold plotCalls. rewrite omap_app.
    replace (omap _ evs) with (@nil (addr * list CalcTrace)); [by rewrite app_nil_r|].
    clear -Hlogs. induction Hlogs as [|e evs He _ IH]; [done|].
    destruct e; try discriminate; exact IH.
Qed.

(** The state [plot] reaches, by how far it gets. *)
Lemma plot_state (s : State) :
  snd (plot s) =
  if decide (mapboxgl_version s = requiredVersion) then
    match findAccessToken (_subplots (_fullLayout (gd s))) s with
    | (Normal accessToken, s') =>
        match _subplots (_fullLayout (gd s)) with
        | Some ids => snd (forEach plotSubplot ids (with_accessToken accessToken s'))
        | None => with_accessToken accessToken s'
        end
    | (Throw e, s') => s'
    end
  else s.
Proof.
  case_decide as Hversion.
  - rewrite plot_run by done.
    destruct (findAccessToken _ s) as [[accessToken|e] s']; [|done].
    destruct (_subplots (_fullLayout (gd s))); [|done].
    by rewrite plotSubplots_forEach.
  - unfold plot. rewrite bind_run. simpl. by rewrite decide_False.
Qed.

(** *** plot *)

Lemma plotSubplot_keeps_view (a : addr) (v : View) (bound : nat) (id : string) (s : State) :
  (a < bound)%nat →
  (bound ≤ next s)%nat ∧ viewInitial (heap s a) = Some v →
  (bound ≤ next (snd (plotSubplot id s)))%nat
  ∧ viewInitial (heap (snd (plotSubplot id s)) a) = Some v.
Proof.
  intros Ha [Hbound Hview].
  destruct (entries (_fullLayout (gd s)) !! id) as [opts|] eqn:Hopts;
    [|by rewrite plotSubplot_missing].
  destruct (_subplot opts) as [a'|] eqn:Hslot.
  - destruct (plotSubplot_reuse id s opts a' Hopts Hslot)
      as (s1 & -> & _ & Hnext & _ & _ & _ & Hheap & Hview' & _). simpl.
    split; [lia|].
    destruct (decide (a = a')) as [<-|Hne]; [by rewrite Hview', Hview|by rewrite Hheap].
  - destruct (plotSubplot_new id s opts Hopts Hslot)
      as (s1 & -> & _ & _ & _ & _ & _ & Hnext & _ & _ & _ & Hheap & _). simpl.
    split; [lia|]. rewrite Hheap; [done|lia].
Qed.

(** X1: a wrapper that exists and has its [viewInitial] set keeps it through
    any [plot], however the layout options have changed since and however
    the call completes. *)
Theorem plot_keeps_viewInitial (s : State) (a : addr) (v : View) :
  (a < next s)%nat →
  viewInitial (heap s a) = Some v →
  viewInitial (heap (snd (plot s)) a) = Some v.
Proof.
  intros Ha Hview. rewrite plot_state. case_decide; [|done].
  destruct (findAccessToken_state (_subplots (_fullLayout (gd s))) s)
    as (_ & Hnext & Hheap & _).
  destruct (findAccessToken _ s) as [[accessToken|e] s']; simpl in *;
    [|by rewrite Hheap].
  destruct (_subplots (_fullLayout (gd s))) as [ids|]; simpl; [|by rewrite Hheap].
  apply (forEach_invariant plotSubplot
           (λ s1, (next s ≤ next s1)%nat ∧ viewInitial (heap s1 a) = Some v)).
  - intros id s1. by apply plotSubplot_keeps_view.
  - simpl. rewrite Hheap. split; [lia|done].
Qed.

Lemma plotSubplot_config (id : string) (s : State) :
  tokenConfig (snd (plotSubplot id s)) = tokenConfig s
  ∧ mapboxgl_version (snd (plotSubplot id s)) = mapboxgl_version s
  ∧ mapboxgl_accessToken (snd (plotSubplot id s)) = mapboxgl_accessToken s.
Proof.
  destruct (entries (_fullLayout (gd s)) !! id) as [opts|] eqn:Hopts;
    [|by rewrite plotSubplot_missing].
  destruct (_subplot opts) as [a|] eqn:Hslot.
  - destruct (plotSubplot_reuse id s opts a Hopts Hslot)
      as (s1 & -> & Hgd & _ & Hversion & Htoken & _). simpl.
    split_and!; [|done..]. unfold tokenConfig. by rewrite Hgd.
  - destruct (plotSubplot_new id s opts Hopts Hslot)
      as (s1 & -> & Hentries & Hids & _ & _ & Hctx & _ & Hversion & Htoken & _). simpl.
    split_and!; [|done..]. by apply (tokenConfig_alter s s1 id (next s)).
Qed.

Lemma plot_config (s : State) :
  tokenConfig (snd (plot s)) = tokenConfig s
  ∧ mapboxgl_version (snd (plot s)) = mapboxgl_version s.
Proof.
  rewrite plot_state. case_decide; [|done].
  destruct (findAccessToken_state (_subplots (_fullLayout (gd s))) s)
    as (Hgd & _ & _ & Hversion & _).
  destruct (findAccessToken _ s) as [[accessToken|e] s']; simpl in *.
  2:{ unfold tokenConfig. by rewrite Hgd. }
  assert (tokenConfig (with_accessToken accessToken s') = tokenConfig s
          ∧ mapboxgl_version (with_accessToken accessToken s') = mapboxgl_version s) as Hstart.
  { unfold tokenConfig. simpl. by rewrite Hgd. }
  destruct (_subplots (_fullLayout (gd s))) as [ids|]; [|done].
  apply (forEach_invariant plotSubplot
           (λ s1, tokenConfig s1 = tokenConfig s ∧ mapboxgl_version s1 = mapboxgl_version s));
    [|done].
  intros id s1 [Hcfg Hv]. destruct (plotSubplot_config id s1) as (Hcfg' & Hv' & _).
  split; congruence.
Qed.

(** X2: [plot] assigns [mapboxgl.accessToken] exactly when the version check
    passed and [findAccessToken] returned, and then to the token returned,
    also when the loop over the subplots throws afterwards; otherwise the
    global keeps its value.  A second [plot] leaves it as the first did. *)
Theorem plot_installs_token (s : State) :
  mapboxgl_accessToken (snd (plot s))
  = (if decide (mapboxgl_version s = requiredVersion) then
       match fst (findAccessToken (_subplots (_fullLayout (gd s))) s) with
       | Normal accessToken => Some accessToken
       | Throw _ => mapboxgl_accessToken s
       end
     else mapboxgl_accessToken s)
  ∧ mapboxgl_accessToken (snd (plot (snd (plot s)))) = mapboxgl_accessToken (snd (plot s)).
Proof.
  assert (∀ s0, mapboxgl_accessToken (snd (plot s0))
                = if decide (mapboxgl_version s0 = requiredVersion) then
                    match fst (findAccessToken (_subplots (_fullLayout (gd s0))) s0) with
                    | Normal accessToken => Some accessToken
                    | Throw _ => mapboxgl_accessToken s0
                    end
                  else mapboxgl_accessToken s0) as Hassigned.
  { intros s0. rewrite plot_state. case_decide; [|done].
    destruct (findAccessToken_state (_subplots (_fullLayout (gd s0))) s0)
      as (_ & _ & _ & _ & Htoken & _).
    destruct (findAccessToken _ s0) as [[accessToken|e] s']; simpl in *; [|done].
    destruct (_subplots (_fullLayout (gd s0))) as [ids|]; [|done].
    apply (forEach_invariant plotSubplot (λ s1, mapboxgl_accessToken s1 = Some accessToken));
      [|done].
    intros id s1 Hs1. destruct (plotSubplot_config id s1) as (_ & _ & Htoken').
    by rewrite Htoken'. }
  split; [apply Hassigned|].
  destruct (plot_config s) as [Hcfg Hversion].
  assert (_subplots (_fullLayout (gd (snd (plot s)))) = _subplots (_fullLayout (gd s)))
    as Hids by (by injection Hcfg).
  rewrite (Hassigned (snd (plot s))), Hversion, Hids.
  rewrite (findAccessToken_config _ s (snd (plot s)) Hcfg).
  rewrite (Hassigned s).
  case_decide; [|done].
  by destruct (fst (findAccessToken (_subplots (_fullLayout (gd s))) s)).
Qed.

(** X3: [plot] changes nothing that [findAccessToken] reads: after any
    [plot], however it completed, token resolution completes as before it,
    with the same token or the same exception. *)
Theorem plot_keeps_resolution (s : State) (mapboxIds : option (list string)) :
  fst (findAccessToken mapboxIds (snd (plot s))) = fst (findAccessToken mapboxIds s).
Proof.
  destruct (plot_config s) as [Hcfg _]. by apply findAccessToken_config.
Qed.

Lemma slotOf_with_subplot (s s1 : State) (id id' : string) (a : addr) (opts : Opts) :
  entries (_fullLayout (gd s)) !! id = Some opts →
  entries (_fullLayout (gd s1)) = alter (with_subplot a) id (entries (_fullLayout (gd s))) →
  slotOf (_fullLayout (gd s1)) id'
  = if decide (id = id') then Some a else slotOf (_fullLayout (gd s)) id'.
Proof.
  intros Hopts Hentries. unfold slotOf. rewrite Hentries.
  case_decide as Hid.
  - subst id'. by rewrite lookup_alter_eq, Hopts.
  - by rewrite lookup_alter_ne.
Qed.

Lemma plotSubplot_owned (id : string) (s : State) :
  ownedWrappers s → ownedWrappers (snd (plotSubplot id s)).
Proof.
  intros [Hbound Hinj].
  destruct (entries (_fullLayout (gd s)) !! id) as [opts|] eqn:Hopts;
    [|by rewrite plotSubplot_missing].
  destruct (_subplot opts) as [a|] eqn:Hslot.
  - destruct (plotSubplot_reuse id s opts a Hopts Hslot)
      as (s1 & -> & Hgd & Hnext & _). simpl.
    unfold ownedWrappers. by rewrite Hgd, Hnext.
  - destruct (plotSubplot_new id s opts Hopts Hslot)
      as (s1 & -> & Hentries & _ & _ & _ & _ & Hnext & _). simpl.
    pose proof (λ id', slotOf_with_subplot s s1 id id' (next s) opts Hopts Hentries) as Hslots.
    split.
    + intros id' a. rewrite Hslots, Hnext. case_decide.
      * intros [= <-]. lia.
      * intros Ha%Hbound. lia.
    + intros id1 id2 a. rewrite !Hslots. repeat case_decide; subst.
      * done.
      * intros [= <-] Ha%Hbound. lia.
      * intros Ha%Hbound [= <-]. lia.
      * apply Hinj.
Qed.

(** X4: if every slot holds an allocated wrapper and no two subplots share
    one, the same holds after any [plot], however it completes: [plot]
    never gives two subplots the same wrapper. *)
Theorem plot_keeps_wrappers_owned (s : State) :
  ownedWrappers s → ownedWrappers (snd (plot s)).
Proof.
  intros Howned. rewrite plot_state. case_decide; [|done].
  destruct (findAccessToken_state (_subplots (_fullLayout (gd s))) s)
    as (Hgd & Hnext & _).
  destruct (findAccessToken _ s) as [[accessToken|e] s']; simpl in *.
  2:{ unfold ownedWrappers. by rewrite Hgd, Hnext. }
  assert (ownedWrappers (with_accessToken accessToken s')) as Hstart.
  { unfold ownedWrappers. simpl. by rewrite Hgd, Hnext. }
  destruct (_subplots (_fullLayout (gd s))) as [ids|]; [|done].
  apply (forEach_invariant plotSubplot ownedWrappers); [|done].
  intros id s1. apply plotSubplot_owned.
Qed.

Lemma plotSubplots_fresh (ids : list string) :
  ∀ s, NoDup ids →
       Forall (λ id, ∃ opts, entries (_fullLayout (gd s)) !! id = Some opts
                             ∧ _subplot opts = None) ids →
       ∃ s', plotSubplots ids s = (Normal tt, s')
             ∧ next s' = next s + length ids
             ∧ constructed (trace s') = constructed (trace s) ++ seq (next s) (length ids)
             ∧ (∀ id, id ∉ ids →
                      entries (_fullLayout (gd s')) !! id = entries (_fullLayout (gd s)) !! id)
             ∧ (∀ i id opts,
                  ids !! i = Some id →
                  entries (_fullLayout (gd s)) !! id = Some opts →
                  entries (_fullLayout (gd s')) !! id = Some (with_subplot (next s + i) opts)
                  ∧ viewInitial (heap s' (next s + i)) = Some (initialView opts))
             ∧ (∀ b, (b < next s)%nat → heap s' b = heap s b)
             ∧ mapboxgl_accessToken s' = mapboxgl_accessToken s.
Proof.
  induction ids as [|id ids IH]; intros s Hnodup Hfresh; simpl.
  - exists s. rewrite Nat.add_0_r, app_nil_r. by split_and!.
  - apply NoDup_cons in Hnodup as [Hnotin Hnodup].
    inversion Hfresh as [|?? (opts & Hopts & Hslot) Hfresh']; subst.
    destruct (plotSubplot_new id s opts Hopts Hslot)
      as (s1 & Hrun & Hentries & _ & _ & _ & _ & Hnext & _ & Htoken & Htrace & Hheap & Hview).
    rewrite bind_run, Hrun.
    assert (∀ id', id' ≠ id →
                   entries (_fullLayout (gd s1)) !! id' = entries (_fullLayout (gd s)) !! id')
      as Hother.
    { intros id' Hne. rewrite Hentries. by apply lookup_alter_ne. }
    destruct (IH s1 Hnodup) as (s' & -> & Hnext' & Hnew' & Hkeep' & Hset' & Hheap' & Htoken').
    { apply Forall_forall. intros id' Hin.
      rewrite Forall_forall in Hfresh'. rewrite Hother; [by apply Hfresh'|].
      by intros ->. }
    exists s'. split_and!.
    + done.
    + rewrite Hnext', Hnext. lia.
    + rewrite Hnew', Htrace, Hnext. unfold constructed. rewrite omap_app. simpl.
      by rewrite <- app_assoc.
    + intros id' [Hne Hnotin']%not_elem_of_cons. by rewrite Hkeep', Hother.
    + intros i id' opts' Hi Hopts'. destruct i as [|i]; simpl in Hi.
      * injection Hi as <-. rewrite Nat.add_0_r.
        rewrite Hkeep', Hentries, lookup_alter_eq, Hopts by done.
        assert (opts' = opts) as -> by congruence.
        split; [done|]. rewrite Hheap'; [done|lia].
      * assert (id' ≠ id) as Hne.
        { intros ->. apply Hnotin. by eapply list_elem_of_lookup_2. }
        destruct (Hset' i id' opts' Hi) as [Hslot' Hview']; [by rewrite Hother|].
        rewrite Hnext in Hslot', Hview'.
        replace (next s + S i) with (S (next s) + i) by lia. done.
    + intros b Hb. rewrite Hheap', Hheap; [done|lia|lia].
    + congruence.
Qed.

(** X5: on a page whose listed subplots are distinct and have no wrapper
    yet, a [plot] that passes the version check and resolves a token
    completes, constructs exactly one wrapper per subplot, in order, at the
    next free references, stores each in its subplot's slot with
    [viewInitial] taken from that subplot's options, writes no wrapper that
    existed before, and installs the token. *)
Theorem plot_constructs_wrappers (s : State) (ids : list string) (accessToken : string) :
  mapboxgl_version s = requiredVersion →
  _subplots (_fullLayout (gd s)) = Some ids →
  fst (findAccessToken (Some ids) s) = Normal accessToken →
  NoDup ids →
  Forall (λ id, ∃ opts, entries (_fullLayout (gd s)) !! id = Some opts
                        ∧ _subplot opts = None) ids →
  ∃ s', plot s = (Normal tt, s')
        ∧ constructed (trace s') = constructed (trace s) ++ seq (next s) (length ids)
        ∧ next s' = next s + length ids
        ∧ (∀ i id opts,
             ids !! i = Some id →
             entries (_fullLayout (gd s)) !! id = Some opts →
             entries (_fullLayout (gd s')) !! id = Some (with_subplot (next s + i) opts)
             ∧ viewInitial (heap s' (next s + i)) = Some (initialView opts))
        ∧ (∀ b, (b < next s)%nat → heap s' b = heap s b)
        ∧ mapboxgl_accessToken s' = Some accessToken.
Proof.
  intros Hversion Hids Hfind Hnodup Hfresh.
  rewrite plot_run by done. rewrite Hids.
  destruct (findAccessToken_state (Some ids) s) as (Hgd & Hnext & Hheap & _ & _ & Hnew & _).
  destruct (findAccessToken (Some ids) s) as [c sf]. simpl in *. subst c.
  destruct (plotSubplots_fresh ids (with_accessToken accessToken sf) Hnodup)
    as (s' & -> & Hnext' & Hnew' & _ & Hset' & Hheap' & Htoken').
  { simpl. by rewrite Hgd. }
  simpl in *. rewrite Hgd, Hnext in *. rewrite Hheap in Hheap'.
  exists s'. split_and!; try done. by rewrite Hnew', Hnew.
Qed.

(** One normal iteration of the loop of [plot] calls [mapbox.plot] once, on
    the wrapper the slot then holds, and changes no slot that was set. *)
Lemma plotSubplot_call (id : string) (s s1 : State) :
  plotSubplot id s = (Normal tt, s1) →
  ∃ a, slotOf (_fullLayout (gd s1)) id = Some a
       ∧ plotCalls (trace s1)
         = plotCalls (trace s) ++ [(a, getSubplotCalcData (calcdata (gd s)) id)]
       ∧ calcdata (gd s1) = calcdata (gd s)
       ∧ (∀ id' a', slotOf (_fullLayout (gd s)) id' = Some a' →
                    slotOf (_fullLayout (gd s1)) id' = Some a').
Proof.
  intros Hrun.
  destruct (entries (_fullLayout (gd s)) !! id) as [opts|] eqn:Hopts;
    [|by rewrite plotSubplot_missing in Hrun].
  destruct (_subplot opts) as [a|] eqn:Hslot.
  - destruct (plotSubplot_reuse id s opts a Hopts Hslot)
      as (s1' & Hrun' & Hgd & _ & _ & _ & Htrace & _).
    rewrite Hrun' in Hrun. injection Hrun as ->.
    exists a. rewrite Hgd, Htrace. split_and!; try done.
    + unfold slotOf. by rewrite Hopts.
    + unfold plotCalls. by rewrite omap_app.
  - destruct (plotSubplot_new id s opts Hopts Hslot)
      as (s1' & Hrun' & Hentries & _ & _ & Hcalc & _ & _ & _ & _ & Htrace & _).
    rewrite Hrun' in Hrun. injection Hrun as ->.
    pose proof (λ id', slotOf_with_subplot s s1 id id' (next s) opts Hopts Hentries) as Hslots.
    exists (next s). rewrite Htrace. split_and!; try done.
    + rewrite Hslots. by rewrite decide_True.
    + unfold plotCalls. by rewrite omap_app.
    + intros id' a' Hslot'. rewrite Hslots. case_decide; [|done]. subst id'.
      unfold slotOf in Hslot'. rewrite Hopts in Hslot'. simpl in Hslot'. congruence.
Qed.

Lemma plotSubplots_calls (ids : list string) :
  ∀ s s', plotSubplots ids s = (Normal tt, s') →
          plotCalls (trace s')
          = plotCalls (trace s)
            ++ omap (λ id, a ← slotOf (_fullLayout (gd s')) id;
                           Some (a, getSubplotCalcData (calcdata (gd s)) id)) ids
          ∧ Forall (λ id, is_Some (slotOf (_fullLayout (gd s')) id)) ids
          ∧ calcdata (gd s') = calcdata (gd s)
          ∧ (∀ id a, slotOf (_fullLayout (gd s)) id = Some a →
                     slotOf (_fullLayout (gd s')) id = Some a).
Proof.
  induction ids as [|id ids IH]; intros s s' Hrun; simpl in Hrun.
  - injection Hrun as ->. simpl. rewrite app_nil_r. by split_and!.
  - rewrite bind_run in Hrun.
    destruct (plotSubplot id s) as [[[]|e] s1] eqn:Hstep; [|done].
    destruct (plotSubplot_call id s s1 Hstep) as (a & Hslot & Hcalls & Hcalc & Hstable).
    destruct (IH s1 s' Hrun) as (Hcalls' & Hslots' & Hcalc' & Hstable').
    split_and!.
    + simpl. rewrite (Hstable' id a Hslot). simpl.
      rewrite Hcalls', Hcalls, Hcalc. by rewrite <- app_assoc.
    + constructor; [|done]. rewrite (Hstable' id a Hslot). by eexists.
    + congruence.
    + intros id' a' Hslot'. by apply Hstable', Hstable.
Qed.

(** X6: a [plot] that completes calls [mapbox.plot] exactly once per listed
    subplot, in the order of the list, each time on the wrapper that the
    subplot's slot holds afterwards and with the calculated data of that
    subplot; and it moves no wrapper out of a slot. *)
Theorem plot_calls_each_wrapper (s s' : State) :
  plot s = (Normal tt, s') →
  ∃ ids, _subplots (_fullLayout (gd s)) = Some ids
         ∧ plotCalls (trace s')
           = plotCalls (trace s)
             ++ omap (λ id, a ← slotOf (_fullLayout (gd s')) id;
                            Some (a, getSubplotCalcData (calcdata (gd s)) id)) ids
         ∧ Forall (λ id, is_Some (slotOf (_fullLayout (gd s')) id)) ids
         ∧ (∀ id a, slotOf (_fullLayout (gd s)) id = Some a →
                    slotOf (_fullLayout (gd s')) id = Some a).
Proof.
  intros Hrun.
  destruct (decide (mapboxgl_version s = requiredVersion)) as [Hversion|Hversion];
    [|unfold plot in Hrun; rewrite bind_run in Hrun; simpl in Hrun;
      by rewrite decide_False in Hrun].
  rewrite plot_run in Hrun by done.
  destruct (findAccessToken_state (_subplots (_fullLayout (gd s))) s)
    as (Hgd & _ & _ & _ & _ & _ & Hcalls).
  destruct (findAccessToken _ s) as [[accessToken|e] sf]; [|done]. simpl in *.
  destruct (_subplots (_fullLayout (gd s))) as [ids|]; [|done].
  destruct (plotSubplots_calls ids _ s' Hrun) as (Hcalls' & Hslots' & _ & Hstable').
  simpl in *. rewrite Hgd, Hcalls in *.
  exists ids. by split_and!.
Qed.

(** *** findAccessToken *)

Lemma scanSubplots_missing (before after : list string) (id : string) :
  ∀ (acc : Scan) (s : State),
    hasEntries (_fullLayout (gd s)) before →
    entries (_fullLayout (gd s)) !! id = None →
    scanSubplots (before ++ id :: after) acc s
    = ( Throw TypeError,
        with_trace (trace s ++ ((λ _, LibError noTokenMsg)
                                  <$> offenders (_fullLayout (gd s)) before)) s ).
Proof.
  induction before as [|id' before IH]; intros acc s Hwf Hnone; simpl.
  - rewrite bind_run. unfold scanSubplot. rewrite bind_run, fullLayout_get_run, Hnone.
    by rewrite with_trace_nil.
  - inversion Hwf as [|?? [opts Hopts] Hwf']; subst.
    rewrite bind_run. unfold scanSubplot. rewrite bind_run, fullLayout_get_run, Hopts.
    unfold offenders. rewrite filter_cons, Hopts. simpl. unfold lacksToken.
    destruct (isMapboxStyle (style opts)), (truthy (accesstoken opts)) as [tok|]; simpl;
      try by rewrite IH.
    rewrite IH by done. simpl. by rewrite with_trace_app.
Qed.

(** X7: when the context does not ask for the empty token, a listed id
    without options makes [findAccessToken] throw a TypeError, after the
    errors logged for the subplots before it; [plot] then throws it too,
    before any wrapper is constructed, any slot set or the token assigned,
    also for the subplots that precede the id. *)
Theorem plot_missing_options (s : State) (before after : list string) (id : string) :
  let layout := _fullLayout (gd s) in
  let errors := replicate (length (offenders layout before)) (LibError noTokenMsg) in
  mapboxAccessToken (_context (gd s)) ≠ Some "" →
  hasEntries layout before →
  entries layout !! id = None →
  findAccessToken (Some (before ++ id :: after)) s
  = (Throw TypeError, with_trace (trace s ++ errors) s)
  ∧ (mapboxgl_version s = requiredVersion →
     _subplots layout = Some (before ++ id :: after) →
     plot s = (Throw TypeError, with_trace (trace s ++ errors) s)).
Proof.
  intros layout errors Hctx Hwf Hnone.
  assert (findAccessToken (Some (before ++ id :: after)) s
          = (Throw TypeError, with_trace (trace s ++ errors) s)) as Hfind.
  { unfold findAccessToken. rewrite bind_run. simpl. rewrite decide_False by done.
    rewrite bind_run. simpl. rewrite bind_run, scanSubplots_missing by done.
    subst errors. by rewrite <- (const_fmap (λ _, LibError noTokenMsg)). }
  split; [done|]. intros Hversion Hids.
  rewrite plot_run by done. fold layout. by rewrite Hids, Hfind.
Qed.

Lemma scanSubplots_entries (ids : list string) :
  ∀ (acc acc' : Scan) (s s' : State),
    scanSubplots ids acc s = (Normal acc', s') →
    hasEntries (_fullLayout (gd s)) ids.
Proof.
  induction ids as [|id ids IH]; intros acc acc' s s' Hrun; [constructor|].
  simpl in Hrun. rewrite bind_run in Hrun. unfold scanSubplot in Hrun.
  rewrite bind_run, fullLayout_get_run in Hrun.
  destruct (entries (_fullLayout (gd s)) !! id) as [opts|] eqn:Hopts; [|done].
  constructor; [by rewrite Hopts|].
  destruct (isMapboxStyle (style opts)), (truthy (accesstoken opts)); simpl in Hrun;
    by apply IH in Hrun.
Qed.

Lemma truthy_nonempty (token : option string) (tok : string) :
  truthy token = Some tok → tok ≠ "".
Proof.
  destruct token as [tok'|]; simpl; [|done]. case_decide; [done|]. congruence.
Qed.

Lemma usefulTokens_nonempty (layout : Layout) (ids : list string) (tok : string) :
  tok ∈ usefulTokens layout ids → tok ≠ "".
Proof.
  intros (id & _ & Htok)%list_elem_of_omap.
  destruct (entries layout !! id) as [opts|]; simpl in Htok; [|done].
  destruct (isMapboxStyle (style opts)); [|done]. by eapply truthy_nonempty.
Qed.

(** X8: whenever [findAccessToken] returns, either the context asked for the
    empty token and the empty string is returned, or every listed subplot
    has its options, none with a Mapbox style lacks a token, and the result
    is the first token of a subplot with a Mapbox style, or the empty string
    when there is no such subplot; a returned token is never taken from a
    subplot without a Mapbox style. *)
Theorem findAccessToken_returns (s s' : State) (ids : list string) (accessToken : string) :
  let layout := _fullLayout (gd s) in
  findAccessToken (Some ids) s = (Normal accessToken, s') →
  (mapboxAccessToken (_context (gd s)) = Some "" ∧ accessToken = "")
  ∨ (hasEntries layout ids
     ∧ offenders layout ids = []
     ∧ head (usefulTokens layout ids) = (if decide (accessToken = "") then None
                                         else Some accessToken)).
Proof.
  intros layout Hrun.
  destruct (decide (mapboxAccessToken (_context (gd s)) = Some "")) as [Hctx|Hctx].
  { left. split; [done|].
    unfold findAccessToken in Hrun. rewrite bind_run in Hrun. simpl in Hrun.
    rewrite decide_True in Hrun by done. by injection Hrun as <-. }
  right.
  assert (hasEntries layout ids) as Hwf.
  { unfold findAccessToken in Hrun. rewrite bind_run in Hrun. simpl in Hrun.
    rewrite decide_False in Hrun by done. rewrite bind_run in Hrun. simpl in Hrun.
    rewrite bind_run in Hrun.
    destruct (scanSubplots ids _ s) as [[acc|e] s1] eqn:Hscan; [|done].
    by eapply scanSubplots_entries. }
  rewrite findAccessToken_run in Hrun by done. simpl in Hrun. fold layout in Hrun.
  destruct (offenders layout ids) as [|off offs]; [|done].
  split_and!; [done..|].
  destruct (usefulTokens layout ids) as [|first rest] eqn:Huseful.
  - simpl in Hrun. injection Hrun as <-. by rewrite decide_True.
  - destruct (distinct_cons first rest) as (others & Hdistinct & _).
    rewrite Hdistinct in Hrun. injection Hrun as <-. simpl.
    rewrite decide_False; [done|].
    apply (usefulTokens_nonempty layout ids). rewrite Huseful. by left.
Qed.

(** *** toSVG *)

Lemma exportEvents_ext (s s1 : State) (id : string) :
  gd s1 = gd s →
  (∀ a, slotOf (_fullLayout (gd s)) id = Some a → heap s1 a = heap s a) →
  exportEvents s1 id = exportEvents s id.
Proof.
  intros Hgd Hheap. unfold exportEvents, exportedImage. rewrite Hgd.
  unfold slotOf in *.
  destruct (entries (_fullLayout (gd s)) !! id) as [opts|]; simpl in *; [|done].
  destruct (_subplot opts) as [a|]; simpl in *; [|done].
  by rewrite Hheap.
Qed.

Lemma elem_of_wrappersOf (layout : Layout) (ids : list string) (id : string) (a : addr) :
  id ∈ ids → slotOf layout id = Some a → a ∈ wrappersOf layout ids.
Proof. intros Hin Hslot. apply list_elem_of_omap. by exists id. Qed.

Lemma toSVGSubplots_snapshots (ids : list string) :
  ∀ s, Forall (hasWrapper (_fullLayout (gd s))) ids →
       NoDup (wrappersOf (_fullLayout (gd s)) ids) →
       ∃ s', toSVGSubplots ids s = (Normal tt, s')
             ∧ gd s' = gd s
             ∧ trace s' = trace s ++ (ids ≫= exportEvents s)
             ∧ (∀ a, a ∈ wrappersOf (_fullLayout (gd s)) ids →
                     map (heap s' a) = Mapbox_destroy (map (heap s a)))
             ∧ (∀ b, b ∉ wrappersOf (_fullLayout (gd s)) ids → heap s' b = heap s b).
Proof.
  induction ids as [|id ids IH]; intros s Hall Hnodup.
  - exists s. simpl. rewrite app_nil_r. split_and!; try done.
    intros a Ha. by apply elem_of_nil in Ha.
  - inversion Hall as [|?? (opts & a & Hopts & Hslot) Hall']; subst.
    assert (wrappersOf (_fullLayout (gd s)) (id :: ids)
            = a :: wrappersOf (_fullLayout (gd s)) ids) as Hwrappers.
    { unfold wrappersOf. simpl. rewrite Hopts. simpl. by rewrite Hslot. }
    rewrite Hwrappers in Hnodup |- *. apply NoDup_cons in Hnodup as [Hnotin Hnodup].
    destruct (toSVGSubplot_run id s opts a Hopts Hslot)
      as (s1 & Hrun & Hgd & _ & _ & Htrace & Hheap & _ & Hmap).
    simpl. rewrite bind_run, Hrun.
    destruct (IH s1) as (s' & -> & Hgd' & Htrace' & Hmap' & Hheap'); [by rewrite Hgd..|].
    rewrite Hgd in Hmap', Hheap'.
    assert (ids ≫= exportEvents s1 = ids ≫= exportEvents s) as Hevents.
    { apply Forall_bind_ext, Forall_forall. intros id' Hin.
      apply exportEvents_ext; [done|]. intros a' Hslot'. apply Hheap.
      intros ->. apply Hnotin. by eapply elem_of_wrappersOf. }
    exists s'. split_and!.
    + done.
    + congruence.
    + rewrite Htrace', Htrace, Hevents, <- app_assoc. f_equal.
      unfold exportEvents at 2, exportedImage, slotOf. rewrite Hopts. simpl. by rewrite Hslot.
    + intros a' [->|Hin]%elem_of_cons.
      * rewrite Hheap' by done. done.
      * rewrite Hmap' by done. rewrite Hheap; [done|]. by intros ->.
    + intros b [Hne Hnotin']%not_elem_of_cons. by rewrite Hheap', Hheap.
Qed.

(** X9: when the listed subplots have wrappers of their own, [toSVG]
    completes and leaves, for each subplot in order, the call of [toImage],
    the image made of that snapshot and placed by the subplot's domain, and
    then the call of [destroy]: every image is the snapshot of a wrapper that
    is not destroyed yet.  Each exported wrapper's engine went through
    [destroy] once, and no other wrapper and no slot is written. *)
Theorem toSVG_snapshots_then_destroys (s : State) (ids : list string) :
  let layout := _fullLayout (gd s) in
  _subplots layout = Some ids →
  Forall (hasWrapper layout) ids →
  NoDup (wrappersOf layout ids) →
  ∃ s', toSVG s = (Normal tt, s')
        ∧ trace s' = trace s ++ (ids ≫= exportEvents s)
        ∧ images (trace s') = images (trace s) ++ omap (exportedImage s) ids
        ∧ (∀ a, a ∈ wrappersOf layout ids →
                map (heap s' a) = Mapbox_destroy (map (heap s a)))
        ∧ (∀ b, b ∉ wrappersOf layout ids → heap s' b = heap s b)
        ∧ gd s' = gd s.
Proof.
  intros layout Hids Hall Hnodup.
  unfold toSVG. rewrite bind_run. simpl. rewrite bind_run. fold layout. rewrite Hids. simpl.
  destruct (toSVGSubplots_snapshots ids s Hall Hnodup)
    as (s' & -> & Hgd & Htrace & Hmap & Hheap).
  exists s'. split_and!; try done.
  rewrite Htrace. unfold images. rewrite omap_app. f_equal.
  subst layout. clear -Hall. induction Hall as [|id ids (opts & a & Hopts & Hslot) _ IH]; [done|].
  rewrite bind_cons, omap_app, IH. simpl.
  unfold exportEvents, exportedImage, slotOf. rewrite Hopts. simpl. by rewrite Hslot.
Qed.

Lemma forEach_app (body : string → Js unit) (ids1 ids2 : list string) (s : State) :
  forEach body (ids1 ++ ids2) s =
  match forEach body ids1 s with
  | (Normal _, s1) => forEach body ids2 s1
  | (Throw e, s1) => (Throw e, s1)
  end.
Proof.
  revert s. induction ids1 as [|id ids1 IH]; intros s; simpl; [done|].
  rewrite !bind_run. by destruct (body id s) as [[[]|e] s1].
Qed.

Lemma toSVGSubplot_no_wrapper (id : string) (s : State) :
  ¬ hasWrapper (_fullLayout (gd s)) id →
  toSVGSubplot id s = (Throw TypeError, s).
Proof.
  intros Hno. unfold toSVGSubplot. js_run.
  destruct (entries (_fullLayout (gd s)) !! id) as [opts|] eqn:Hopts; [|done].
  destruct (_subplot opts) as [a|] eqn:Hslot; [|done].
  destruct Hno. by exists opts, a.
Qed.

(** X10: [toSVG] does not skip a listed subplot without a wrapper: it throws
    a TypeError at the first one, with nothing appended or called for it or
    for the subplots after it, while the subplots before it are exported
    and their wrappers destroyed. *)
Theorem toSVG_throws_without_wrapper
    (s : State) (before after : list string) (id : string) :
  let layout := _fullLayout (gd s) in
  _subplots layout = Some (before ++ id :: after) →
  Forall (hasWrapper layout) before →
  ¬ hasWrapper layout id →
  ∃ s' newImages,
    toSVG s = (Throw TypeError, s')
    ∧ images (trace s') = images (trace s) ++ newImages
    ∧ Forall2 (λ image opts, placedAt (_size layout) (domain opts) image)
              newImages (optsOf layout before)
    ∧ destroyed (trace s') = destroyed (trace s) ++ wrappersOf layout before
    ∧ gd s' = gd s.
Proof.
  intros layout Hids Hall Hno.
  unfold toSVG. rewrite bind_run. simpl. rewrite bind_run. fold layout. rewrite Hids. simpl.
  rewrite toSVGSubplots_forEach, forEach_app, <- toSVGSubplots_forEach.
  destruct (toSVGSubplots_run before s Hall)
    as (s' & newImages & -> & Hgd & _ & _ & Himages & Hplaced & Hdestroyed & _).
  simpl. rewrite bind_run, toSVGSubplot_no_wrapper by (by rewrite Hgd).
  exists s', newImages. by split_and!.
Qed.

(** *** What only [plot] does *)

Lemma heap_set_view (a b : addr) (e : engine) (hp : addr → Mapbox) :
  viewInitial (heap_set a {| viewInitial := viewInitial (hp a); map := e |} hp b)
  = viewInitial (hp b).
Proof. unfold heap_set. by case_decide; subst. Qed.

Lemma toSVGSubplot_same (s s1 : State) (id : string) :
  sameButEngines s s1 → sameButEngines s (snd (toSVGSubplot id s1)).
Proof.
  intros (Hgd & Hnext & Hversion & Htoken & Hnew & Hview).
  unfold toSVGSubplot. js_run.
  destruct (entries (_fullLayout (gd s1)) !! id) as [opts|]; [|by repeat split].
  destruct (_subplot opts) as [a|]; [|by repeat split].
  unfold sameButEngines. simpl. split_and!; try done.
  - unfold constructed in *. rewrite !omap_app. simpl. by rewrite !app_nil_r.
  - intros b. by rewrite heap_set_view.
Qed.

Lemma updateFxSubplot_same (s s1 : State) (id : string) :
  sameButEngines s s1 → sameButEngines s (snd (updateFxSubplot id s1)).
Proof.
  intros (Hgd & Hnext & Hversion & Htoken & Hnew & Hview).
  unfold updateFxSubplot. js_run.
  destruct (entries (_fullLayout (gd s1)) !! id) as [opts|]; [|by repeat split].
  destruct (_subplot opts) as [a|]; [|by repeat split].
  unfold sameButEngines. simpl. split_and!; try done.
  - unfold constructed in *. rewrite !omap_app. simpl. by rewrite !app_nil_r.
  - intros b. by rewrite heap_set_view.
Qed.

Lemma cleanSubplot_same (new old : Layout) (s s1 : State) (key : string) :
  sameButEngines s s1 → sameButEngines s (snd (cleanSubplot new old key s1)).
Proof.
  intros (Hgd & Hnext & Hversion & Htoken & Hnew & Hview).
  unfold cleanSubplot. destruct (entries new !! key); [by repeat split|]. js_run.
  destruct (entries old !! key) as [opts|]; [|by repeat split].
  destruct (_subplot opts) as [a|]; [|by repeat split].
  unfold sameButEngines. simpl. split_and!; try done.
  - unfold constructed in *. rewrite !omap_app. simpl. by rewrite !app_nil_r.
  - intros b. by rewrite heap_set_view.
Qed.

(** X11: [clean], [toSVG] and [updateFx], however they complete, construct
    no wrapper and allocate no reference, write no layout entry and no slot,
    leave [mapboxgl.version] and [mapboxgl.accessToken] as they are, and
    change the [viewInitial] of no wrapper: of the page they change only the
    engines behind the wrappers and the trace. *)
Theorem only_plot_writes_the_page (s : State) (newFullLayout oldFullLayout : Layout) :
  sameButEngines s (snd (clean newFullLayout oldFullLayout s))
  ∧ sameButEngines s (snd (toSVG s))
  ∧ sameButEngines s (snd (updateFx s)).
Proof.
  split_and!.
  - unfold clean. rewrite cleanSubplots_forEach.
    apply (forEach_invariant (cleanSubplot newFullLayout oldFullLayout) (sameButEngines s)).
    + intros key s1. apply cleanSubplot_same.
    + by repeat split.
  - unfold toSVG. rewrite bind_run. simpl. rewrite bind_run.
    destruct (_subplots (_fullLayout (gd s))) as [ids|]; simpl; [|by repeat split].
    rewrite toSVGSubplots_forEach.
    apply (forEach_invariant toSVGSubplot (sameButEngines s)).
    + intros id s1. apply toSVGSubplot_same.
    + by repeat split.
  - unfold updateFx. rewrite bind_run. simpl. rewrite bind_run.
    destruct (_subplots (_fullLayout (gd s))) as [ids|]; simpl; [|by repeat split].
    rewrite updateFxSubplots_forEach.
    apply (forEach_invariant updateFxSubplot (sameButEngines s)).
    + intros id s1. apply updateFxSubplot_same.
    + by repeat split.
Qed.

(** *** Throws that leave work done *)

Lemma wrappersOf_fresh (layout layout' : Layout) (ids : list string) :
  ∀ n, Forall (λ id, is_Some (entries layout !! id)) ids →
       (∀ i id opts, ids !! i = Some id → entries layout !! id = Some opts →
                     entries layout' !! id = Some (with_subplot (n + i) opts)) →
       wrappersOf layout' ids = seq n (length ids).
Proof.
  induction ids as [|id ids IH]; intros n Hwf Hset; [done|].
  inversion Hwf as [|?? [opts Hopts] Hwf']; subst.
  unfold wrappersOf in *. simpl.
  rewrite (Hset 0 id opts eq_refl Hopts). simpl. rewrite Nat.add_0_r. f_equal.
  apply IH; [done|]. intros i id' opts' Hi Hopts'.
  replace (S n + i) with (n + S i) by lia. by apply Hset.
Qed.

(** X12: with the empty context token nothing is scanned, so a listed id
    without options is met only in the loop of [plot]: [plot] then throws a
    TypeError with the token already assigned and with the wrappers of the
    subplots before that id constructed and stored. *)
Theorem plot_atlas_missing_options
    (s : State) (before after : list string) (id : string) :
  let layout := _fullLayout (gd s) in
  mapboxgl_version s = requiredVersion →
  mapboxAccessToken (_context (gd s)) = Some "" →
  _subplots layout = Some (before ++ id :: after) →
  NoDup before →
  Forall (λ id', ∃ opts, entries layout !! id' = Some opts ∧ _subplot opts = None) before →
  entries layout !! id = None →
  ∃ s', plot s = (Throw TypeError, s')
        ∧ mapboxgl_accessToken s' = Some ""
        ∧ constructed (trace s') = constructed (trace s) ++ seq (next s) (length before)
        ∧ wrappersOf (_fullLayout (gd s')) before = seq (next s) (length before).
Proof.
  intros layout Hversion Hctx Hids Hnodup Hfresh Hnone.
  assert (id ∉ before) as Hnotin.
  { intros Hin. rewrite Forall_forall in Hfresh.
    destruct (Hfresh id Hin) as (opts & Hopts & _). congruence. }
  rewrite plot_run by done. fold layout. rewrite Hids.
  assert (findAccessToken (Some (before ++ id :: after)) s = (Normal "", s)) as ->.
  { unfold findAccessToken. rewrite bind_run. simpl. by rewrite decide_True. }
  rewrite plotSubplots_forEach, forEach_app, <- plotSubplots_forEach.
  destruct (plotSubplots_fresh before (with_accessToken "" s) Hnodup Hfresh)
    as (s' & -> & Hnext & Hnew & Hkeep & Hset & _ & Htoken).
  simpl in *. rewrite bind_run, plotSubplot_missing by (by rewrite Hkeep).
  exists s'. split_and!; try done.
  apply (wrappersOf_fresh layout).
  - eapply Forall_impl; [exact Hfresh|]. intros id' (opts & -> & _). by eexists.
  - intros i id' opts Hi Hopts. by apply Hset.
Qed.

(** X13: [clean] reads the old options of a removed id only: when a removed
    id has no old options, [clean] throws a TypeError there, after the
    [destroy] calls for the removed ids before it; ids that the new layout
    keeps are passed over without a read of the old layout. *)
Theorem clean_missing_old_options
    (s : State) (newFullLayout oldFullLayout : Layout)
    (before after : list string) (key : string) :
  let removed := filter (λ key, entries newFullLayout !! key = None) before in
  _subplots oldFullLayout = Some (before ++ key :: after) →
  hasEntries oldFullLayout removed →
  entries newFullLayout !! key = None →
  entries oldFullLayout !! key = None →
  ∃ s', clean newFullLayout oldFullLayout s = (Throw TypeError, s')
        ∧ trace s' = trace s ++ (CallDestroy <$> wrappersOf oldFullLayout removed)
        ∧ gd s' = gd s.
Proof.
  intros removed Hkeys Hwf Hnew Hold.
  unfold clean. rewrite Hkeys. simpl.
  rewrite cleanSubplots_forEach, forEach_app, <- cleanSubplots_forEach.
  destruct (cleanSubplots_run newFullLayout oldFullLayout before s Hwf)
    as (s' & -> & Hgd & _ & _ & _ & Htrace & _).
  simpl. rewrite bind_run. unfold cleanSubplot. rewrite Hnew. js_run. rewrite Hold.
  exists s'. by split_and!.
Qed.

End Properties.

(** * The properties on the sample pages *)

(** C1 on a page with another mapbox-gl version. *)
Lemma plot_wrong_version_witness :
  mapboxgl_version (sample_page "0.53.0" None layout_tokens) ≠ requiredVersion
  ∧ plot (sample_page "0.53.0" None layout_tokens)
    = (Throw (Error wrongVersionErrorMsg), sample_page "0.53.0" None layout_tokens).
Proof.
  assert (mapboxgl_version (sample_page "0.53.0" None layout_tokens) ≠ requiredVersion)
    as Hversion by (vm_compute; discriminate).
  split; [exact Hversion|].
  exact (plot_wrong_version (sample_page "0.53.0" None layout_tokens) Hversion).
Defined.

Lemma layout_missing_entries :
  hasEntries layout_missing ["mapbox"; "mapbox2"; "mapbox3"].
Proof. repeat constructor; by eexists. Defined.

(** C2 on the layout with two subplots that lack a token: two errors are
    logged before the throw. *)
Lemma plot_missing_token_witness :
  offenders layout_missing ["mapbox"; "mapbox2"; "mapbox3"] = ["mapbox2"; "mapbox3"]
  ∧ plot (sample_page "1.1.1" None layout_missing)
    = ( Throw (Error noAccessTokenErrorMsg),
        with_trace [LibError noTokenMsg; LibError noTokenMsg]
                   (sample_page "1.1.1" None layout_missing) ).
Proof.
  split; [by vm_compute|].
  refine (proj2 (proj2 (plot_missing_token (sample_page "1.1.1" None layout_missing)
                          ["mapbox"; "mapbox2"; "mapbox3"] _ _ _ _)) _).
  - reflexivity.
  - exact layout_missing_entries.
  - discriminate.
  - exists "mapbox2", (sample_opts (StyleString "dark") None None).
    split_and!; [|reflexivity|reflexivity]. set_solver.
  - reflexivity.
Defined.

(** C3 on the same layout, with the context asking for the empty token:
    nothing is logged and nothing is thrown. *)
Lemma findAccessToken_empty_context_witness :
  findAccessToken (Some ["mapbox"; "mapbox2"; "mapbox3"])
                  (sample_page "1.1.1" (Some "") layout_missing)
  = (Normal "", sample_page "1.1.1" (Some "") layout_missing).
Proof.
  apply (findAccessToken_empty_context (Some ["mapbox"; "mapbox2"; "mapbox3"])
           (sample_page "1.1.1" (Some "") layout_missing)).
  reflexivity.
Defined.

(** C4 as stated fails: the useful tokens of [layout_missing] are not
    empty, and [findAccessToken] throws; those of [layout_one] are not empty,
    and with the empty context token [findAccessToken] returns the empty
    string. *)
Lemma findAccessToken_useful_not_returned :
  usefulTokens layout_missing ["mapbox"; "mapbox2"; "mapbox3"] = ["tokA"]
  ∧ fst (findAccessToken (Some ["mapbox"; "mapbox2"; "mapbox3"])
                         (sample_page "1.1.1" None layout_missing))
    = Throw (Error "Missing Mapbox access token.")
  ∧ usefulTokens layout_one ["mapbox"] = ["tokA"]
  ∧ fst (findAccessToken (Some ["mapbox"]) (sample_page "1.1.1" (Some "") layout_one))
    = Normal "".
Proof. by vm_compute. Qed.

Lemma layout_tokens_entries :
  hasEntries layout_tokens ["mapbox"; "mapbox2"; "mapbox3"].
Proof. repeat constructor; by eexists. Defined.

(** C4 (amended) on the tokens tokA, tokB, tokA: tokA is returned, with one
    warning. *)
Lemma findAccessToken_first_useful_witness :
  usefulTokens layout_tokens ["mapbox"; "mapbox2"; "mapbox3"] = ["tokA"; "tokB"; "tokA"]
  ∧ findAccessToken (Some ["mapbox"; "mapbox2"; "mapbox3"])
                    (sample_page "1.1.1" None layout_tokens)
    = ( Normal "tokA",
        with_trace [LibWarn multipleTokensErrorMsg] (sample_page "1.1.1" None layout_tokens) ).
Proof.
  split; [reflexivity|].
  refine (findAccessToken_first_useful (sample_page "1.1.1" None layout_tokens)
            ["mapbox"; "mapbox2"; "mapbox3"] "tokA" ["tokB"; "tokA"] _ _ _ _).
  - exact layout_tokens_entries.
  - discriminate.
  - reflexivity.
  - reflexivity.
Defined.

(** C5 as stated fails: no subplot of [layout_other_styles] has a Mapbox
    style and two tokens are listed, and with the empty context token
    [findAccessToken] logs nothing. *)
Lemma findAccessToken_listed_not_logged :
  usefulTokens layout_other_styles ["mapbox"; "mapbox2"; "mapbox3"] = []
  ∧ listedTokens layout_other_styles ["mapbox"; "mapbox2"; "mapbox3"] = ["tokA"; "tokB"]
  ∧ findAccessToken (Some ["mapbox"; "mapbox2"; "mapbox3"])
                    (sample_page "1.1.1" (Some "") layout_other_styles)
    = (Normal "", sample_page "1.1.1" (Some "") layout_other_styles)
  ∧ trace (sample_page "1.1.1" (Some "") layout_other_styles) = [].
Proof. by vm_compute. Qed.

Lemma layout_other_styles_entries :
  hasEntries layout_other_styles ["mapbox"; "mapbox2"; "mapbox3"].
Proof. repeat constructor; by eexists. Defined.

(** C5 (amended) on the same layout without the override: one log that
    names tokA and tokB. *)
Lemma findAccessToken_no_mapbox_style_witness :
  findAccessToken (Some ["mapbox"; "mapbox2"; "mapbox3"])
                  (sample_page "1.1.1" None layout_other_styles)
  = ( Normal "",
      with_trace
        [LibLog "Listed mapbox access token(s) tokA,tokB but did not use a Mapbox map style, ignoring token(s)."]
        (sample_page "1.1.1" None layout_other_styles) ).
Proof.
  refine (findAccessToken_no_mapbox_style (sample_page "1.1.1" None layout_other_styles)
            ["mapbox"; "mapbox2"; "mapbox3"] _ _ _).
  - exact layout_other_styles_entries.
  - discriminate.
  - intros id opts Hin Hopts.
    assert (id = "mapbox" ∨ id = "mapbox2" ∨ id = "mapbox3") as [->|[->| ->]] by set_solver;
      injection Hopts as <-; reflexivity.
Defined.

(** C6 on the page with three subplots: the first [plot] completes, and
    the second constructs nothing. *)
Lemma plot_twice_witness :
  plot (sample_page "1.1.1" None layout_tokens)
  = (Normal tt, snd (plot (sample_page "1.1.1" None layout_tokens)))
  ∧ constructed (trace (snd (plot (sample_page "1.1.1" None layout_tokens)))) = [0; 1; 2]
  ∧ ∃ s2, plot (snd (plot (sample_page "1.1.1" None layout_tokens))) = (Normal tt, s2)
          ∧ constructed (trace s2) = [0; 1; 2]
          ∧ next s2 = 3.
Proof.
  assert (plot (sample_page "1.1.1" None layout_tokens)
          = (Normal tt, snd (plot (sample_page "1.1.1" None layout_tokens)))) as Hfirst
    by (vm_compute; reflexivity).
  split; [exact Hfirst|]. split; [by vm_compute|].
  destruct (plot_twice _ _ Hfirst) as (s2 & Hsecond & Hnew & Hnext & _).
  exists s2. split; [exact Hsecond|]. split.
  - rewrite Hnew. by vm_compute.
  - rewrite Hnext. by vm_compute.
Defined.

(** C7 on the old layout with the wrappers 0 and 1 and the new layout
    without the second subplot: the one call is [destroy] on wrapper 1. *)
Lemma clean_destroys_removed_witness :
  removedKeys layout_A layout_AB = ["mapbox2"]
  ∧ ∃ s', clean layout_A layout_AB page_AB = (Normal tt, s')
          ∧ trace s' = [CallDestroy 1]
          ∧ heap s' 0 = heap page_AB 0
          ∧ gd s' = gd page_AB.
Proof.
  split; [by vm_compute|].
  destruct (proj2 (clean_destroys_removed layout_A layout_AB page_AB)
              ["mapbox"; "mapbox2"] "mapbox" "mapbox2"
              (sample_opts (StyleString "basic") (Some "tokA") (Some 0))
              (sample_opts (StyleString "basic") (Some "tokA") (Some 1)) 0 1)
    as (s' & Hrun & Htrace & Hheap & Hgd);
    [reflexivity|reflexivity|reflexivity|reflexivity|reflexivity|reflexivity
    |discriminate|by eexists|reflexivity|].
  exists s'. by split_and!.
Defined.

(** C10 on an old layout that was never plotted and an empty new layout. *)
Lemma clean_skips_unplotted_witness :
  removedKeys (sample_layout [] []) layout_tokens = ["mapbox"; "mapbox2"; "mapbox3"]
  ∧ clean (sample_layout [] []) layout_tokens page_AB = (Normal tt, page_AB).
Proof.
  split; [by vm_compute|].
  refine (proj2 (clean_skips_unplotted (sample_layout [] []) layout_tokens page_AB) _ _).
  - exact layout_tokens_entries.
  - intros key opts Hin Hopts.
    assert (key = "mapbox" ∨ key = "mapbox2" ∨ key = "mapbox3") as [->|[->| ->]]
      by (revert Hin; vm_compute; set_solver);
      injection Hopts as <-; reflexivity.
Defined.

Lemma layout_AB_wrappers : Forall (hasWrapper layout_AB) ["mapbox"; "mapbox2"].
Proof. repeat constructor; by eexists _, _. Defined.

(** C9 as stated fails: the subplot "mapbox2" of [layout_half] has no
    wrapper, and [updateFx] throws after the call on wrapper 0. *)
Lemma updateFx_throws_without_wrapper :
  wrappersOf layout_half ["mapbox"; "mapbox2"] = [0]
  ∧ fst (updateFx (plotted_page layout_half)) = Throw TypeError
  ∧ trace (snd (updateFx (plotted_page layout_half))) = [CallUpdateFx 0].
Proof. by vm_compute. Qed.

(** C9 (amended) on the page with two wrappers. *)
Lemma updateFx_refreshes_wrappers_witness :
  ∃ s', updateFx page_AB = (Normal tt, s')
        ∧ trace s' = [CallUpdateFx 0; CallUpdateFx 1]
        ∧ next s' = 2.
Proof.
  destruct (proj1 (updateFx_refreshes_wrappers page_AB ["mapbox"; "mapbox2"] eq_refl)
              layout_AB_wrappers)
    as (s' & Hrun & Htrace & _ & Hnext & _).
  exists s'. by split_and!.
Defined.

(** C8 as stated fails: on the example of the specification the image is
    placed at y = 59.999999999999986 with width 480.00000000000006, not at
    60 and 480; and after [toSVG] the slot still holds wrapper 0, so the
    [plot] that follows constructs no wrapper. *)
Lemma toSVG_rounds_and_keeps_wrapper :
  ( images (trace (snd (toSVG (plotted_page layout_A))))
    = [ {| Image.xmlns := "http://www.w3.org/2000/svg";
           Image.xlink_href := "data:image/png;base64,";
           Image.x := 160;
           Image.y := 59.999999999999986;
           Image.width := 480.00000000000006;
           Image.height := 480;
           Image.preserveAspectRatio := "none" |} ]
    ∧ PrimFloat.eqb 59.999999999999986 60 = false
    ∧ PrimFloat.eqb 480.00000000000006 480 = false )%float
  ∧ destroyed (trace (snd (toSVG page_AB))) = [0; 1]
  ∧ fst (plot (snd (toSVG page_AB))) = Normal tt
  ∧ constructed (trace (snd (plot (snd (toSVG page_AB))))) = []
  ∧ wrappersOf (_fullLayout (gd (snd (plot (snd (toSVG page_AB)))))) ["mapbox"; "mapbox2"]
    = [0; 1].
Proof. by vm_compute. Qed.

(** C8 (amended) on the page with two wrappers. *)
Lemma toSVG_places_and_destroys_witness :
  ∃ s' image1 image2,
    toSVG page_AB = (Normal tt, s')
    ∧ trace s' = [ CallToImage 0; AppendImage image1; CallDestroy 0;
                   CallToImage 1; AppendImage image2; CallDestroy 1 ]
    ∧ placedAt sample_size sample_domain image1
    ∧ placedAt sample_size sample_domain image2
    ∧ Image.xlink_href <$> [image1; image2]
      = [Mapbox_toImage (Running 1); Mapbox_toImage (Running 1)]
    ∧ destroyed (trace s') = [0; 1]
    ∧ constructed (trace (snd (plot s'))) = [].
Proof.
  destruct (proj1 toSVG_places_and_destroys page_AB ["mapbox"; "mapbox2"] eq_refl
              layout_AB_wrappers)
    as (s' & newImages & Hrun & Htrace & Hlen & _ & Hplaced & _ & Hhrefs & Hdestroyed & _
        & Hnew & _).
  destruct newImages as [|image1 [|image2 [|image3 newImages]]]; try discriminate Hlen.
  apply Forall2_cons_1 in Hplaced as [Hplaced1 Hplaced].
  apply Forall2_cons_1 in Hplaced as [Hplaced2 _].
  exists s', image1, image2. split_and!; try done.
  - rewrite Hhrefs; [reflexivity|]. apply (bool_decide_unpack _). by vm_compute.
  - rewrite Hnew. replace s' with (snd (toSVG page_AB)) by (by rewrite Hrun).
    by vm_compute.
Defined.

(** * The further properties on the sample pages *)

(** X1 on the page with two wrappers. *)
Lemma plot_keeps_viewInitial_witness :
  viewInitial (heap page_AB 0) = Some (initialView (sample_opts StyleObject None None))
  ∧ viewInitial (heap (snd (plot page_AB)) 0)
    = Some (initialView (sample_opts StyleObject None None)).
Proof.
  split; [reflexivity|].
  apply (plot_keeps_viewInitial page_AB 0).
  - simpl. lia.
  - reflexivity.
Defined.

Lemma layout_AB_slots (id : string) (a : addr) :
  slotOf layout_AB id = Some a → (id = "mapbox" ∧ a = 0) ∨ (id = "mapbox2" ∧ a = 1).
Proof.
  unfold slotOf, layout_AB, sample_layout. simpl.
  rewrite !lookup_insert. repeat case_decide; subst; simpl; intros [= <-]; auto.
Qed.

(** X4 on the page with two wrappers. *)
Lemma plot_keeps_wrappers_owned_witness :
  ownedWrappers page_AB ∧ ownedWrappers (snd (plot page_AB)).
Proof.
  assert (ownedWrappers page_AB) as Howned.
  { split.
    - intros id a [[-> ->]|[-> ->]]%layout_AB_slots; simpl; lia.
    - intros id1 id2 a [[-> ->]|[-> ->]]%layout_AB_slots
             [[-> ?]|[-> ?]]%layout_AB_slots; congruence. }
  split; [exact Howned|]. exact (plot_keeps_wrappers_owned page_AB Howned).
Defined.

Lemma layout_tokens_fresh :
  Forall (λ id, ∃ opts, entries layout_tokens !! id = Some opts ∧ _subplot opts = None)
         ["mapbox"; "mapbox2"; "mapbox3"].
Proof. repeat constructor; by eexists. Qed.

Lemma three_ids_NoDup : NoDup ["mapbox"; "mapbox2"; "mapbox3"].
Proof. apply (bool_decide_unpack _). by vm_compute. Qed.

(** X5 on the page with three subplots without wrappers. *)
Lemma plot_constructs_wrappers_witness :
  ∃ s', plot (sample_page "1.1.1" None layout_tokens) = (Normal tt, s')
        ∧ constructed (trace s') = [0; 1; 2]
        ∧ next s' = 3
        ∧ mapboxgl_accessToken s' = Some "tokA".
Proof.
  destruct (plot_constructs_wrappers (sample_page "1.1.1" None layout_tokens)
              ["mapbox"; "mapbox2"; "mapbox3"] "tokA")
    as (s' & Hrun & Hnew & Hnext & _ & _ & Htoken);
    [reflexivity|reflexivity|by vm_compute|exact three_ids_NoDup|exact layout_tokens_fresh|].
  exists s'. by split_and!.
Defined.

(** X6 on the same page: one call per subplot, the first with the one
    calculated trace of "mapbox". *)
Lemma plot_calls_each_wrapper_witness :
  plotCalls (trace (snd (plot (sample_page "1.1.1" None layout_tokens))))
  = [ (0, [ {| subplot := "mapbox"; index := 0 |} ]); (1, []); (2, []) ]
  ∧ ∃ ids, _subplots layout_tokens = Some ids
           ∧ Forall (λ id, is_Some (slotOf (_fullLayout (gd (snd (plot
                       (sample_page "1.1.1" None layout_tokens))))) id)) ids.
Proof.
  split; [by vm_compute|].
  destruct (plot_calls_each_wrapper (sample_page "1.1.1" None layout_tokens)
              (snd (plot (sample_page "1.1.1" None layout_tokens))))
    as (ids & Hids & _ & Hslots & _); [by vm_compute|].
  by exists ids.
Defined.

(** X7 on the layout whose second id has no options. *)
Lemma plot_missing_options_witness :
  plot (sample_page "1.1.1" None layout_gap)
  = (Throw TypeError, with_trace [LibError noTokenMsg] (sample_page "1.1.1" None layout_gap)).
Proof.
  refine (proj2 (plot_missing_options (sample_page "1.1.1" None layout_gap)
                   ["mapbox"] ["mapbox3"] "mapbox2" _ _ _) _ _).
  - discriminate.
  - repeat constructor. by eexists.
  - reflexivity.
  - reflexivity.
  - reflexivity.
Defined.

(** X8 on the page with the tokens tokA, tokB, tokA. *)
Lemma findAccessToken_returns_witness :
  head (usefulTokens layout_tokens ["mapbox"; "mapbox2"; "mapbox3"]) = Some "tokA"
  ∧ offenders layout_tokens ["mapbox"; "mapbox2"; "mapbox3"] = [].
Proof.
  destruct (findAccessToken_returns (sample_page "1.1.1" None layout_tokens)
              (snd (findAccessToken (Some ["mapbox"; "mapbox2"; "mapbox3"])
                                    (sample_page "1.1.1" None layout_tokens)))
              ["mapbox"; "mapbox2"; "mapbox3"] "tokA")
    as [[Hctx _]|(_ & Hoff & Hhead)]; [by vm_compute|discriminate Hctx|].
  split; [exact Hhead|exact Hoff].
Defined.

Lemma two_wrappers_NoDup : NoDup (wrappersOf layout_AB ["mapbox"; "mapbox2"]).
Proof. apply (bool_decide_unpack _). by vm_compute. Qed.

(** X9 on the page with two wrappers. *)
Lemma toSVG_snapshots_then_destroys_witness :
  ∃ s', toSVG page_AB = (Normal tt, s')
        ∧ trace s'
          = [ CallToImage 0;
              AppendImage (imageAttr "data:image/png;base64," sample_size sample_domain);
              CallDestroy 0;
              CallToImage 1;
              AppendImage (imageAttr "data:image/png;base64," sample_size sample_domain);
              CallDestroy 1 ]
        ∧ map (heap s' 0) = Released
        ∧ map (heap s' 1) = Released.
Proof.
  destruct (toSVG_snapshots_then_destroys page_AB ["mapbox"; "mapbox2"] eq_refl
              layout_AB_wrappers two_wrappers_NoDup)
    as (s' & Hrun & Htrace & _ & Hmap & _).
  exists s'. split_and!.
  - exact Hrun.
  - rewrite Htrace. reflexivity.
  - apply Hmap. set_solver.
  - apply Hmap. set_solver.
Defined.

Lemma layout_half_no_wrapper : ¬ hasWrapper layout_half "mapbox2".
Proof.
  intros (opts & a & Hopts & Hslot). vm_compute in Hopts. injection Hopts as <-.
  discriminate Hslot.
Qed.

(** X10 on the page whose second subplot has no wrapper. *)
Lemma toSVG_throws_without_wrapper_witness :
  ∃ s', toSVG (plotted_page layout_half) = (Throw TypeError, s')
        ∧ destroyed (trace s') = [0]
        ∧ length (images (trace s')) = 1.
Proof.
  destruct (toSVG_throws_without_wrapper (plotted_page layout_half)
              ["mapbox"] [] "mapbox2" eq_refl)
    as (s' & newImages & Hrun & Himages & Hplaced & Hdestroyed & _).
  - repeat constructor. by eexists _, _.
  - exact layout_half_no_wrapper.
  - exists s'. split_and!; [exact Hrun|exact Hdestroyed|].
    rewrite Himages, length_app, (Forall2_length _ _ _ Hplaced). reflexivity.
Defined.

(** X12 on the same layout with the empty context token, nothing plotted
    yet. *)
Lemma plot_atlas_missing_options_witness :
  ∃ s', plot (sample_page "1.1.1" (Some "") layout_gap) = (Throw TypeError, s')
        ∧ mapboxgl_accessToken s' = Some ""
        ∧ constructed (trace s') = [0].
Proof.
  destruct (plot_atlas_missing_options (sample_page "1.1.1" (Some "") layout_gap)
              ["mapbox"] ["mapbox3"] "mapbox2")
    as (s' & Hrun & Htoken & Hnew & _);
    [reflexivity|reflexivity|reflexivity|apply NoDup_singleton
    |repeat constructor; by eexists|reflexivity|].
  exists s'. by split_and!.
Defined.

(** X13 on an old layout whose second id has no options and an empty new
    layout. *)
Lemma clean_missing_old_options_witness :
  ∃ s', clean (sample_layout [] []) layout_A_gap page_AB = (Throw TypeError, s')
        ∧ trace s' = [CallDestroy 0].
Proof.
  destruct (clean_missing_old_options page_AB (sample_layout [] []) layout_A_gap
              ["mapbox"] [] "mapbox2")
    as (s' & Hrun & Htrace & _);
    [reflexivity|repeat constructor; by eexists|reflexivity|reflexivity|].
  exists s'. split; [exact Hrun|]. rewrite Htrace. reflexivity.
Defined.
